(** * The panel prompt of nerd-icons-list ([ui.py])

    A shallow embedding of the filter / rank / scroll / render state machine
    of [_PanelPromptSession] and of the dataset loader [load_nerdicons],
    followed by the properties established about them.

    Python values are modelled as follows.
    - [str] is a sequence of Unicode code points: [list N].
    - [int] is [Z]; [len] returns a [Z].
    - [list.__getitem__] is [getitem], with Python's negative indices and
      [IndexError] when out of range.
    - an uncaught exception is the [Raise] branch of [result].
    - The built-ins whose behaviour is fixed by the Unicode tables of the
      interpreter ([str.lower], [str.upper], [str.isspace], [int(_, 16)]) are
      Section variables; concrete ASCII instances are given for evaluation. *)

From Stdlib Require Import List ZArith NArith Lia Bool Ascii String.
From Stdlib Require Import Permutation Sorted.
Import ListNotations.
Local Open Scope Z_scope.

Set Implicit Arguments.

(** ** Strings *)

Definition char := N.
Definition str := list char.

(** An ASCII literal as a sequence of code points. *)
Definition lit (s : String.string) : str :=
  List.map N_of_ascii (list_ascii_of_string s).

Definition len {A : Type} (l : list A) : Z := Z.of_nat (List.length l).

(** [a < b], [a == b] on [str]: lexicographic on code points. *)
Fixpoint str_compare (a b : str) : comparison :=
  match a, b with
  | [], [] => Eq
  | [], _ :: _ => Lt
  | _ :: _, [] => Gt
  | x :: a', y :: b' =>
      match N.compare x y with
      | Eq => str_compare a' b'
      | c => c
      end
  end.

Definition str_ltb (a b : str) : bool :=
  match str_compare a b with Lt => true | _ => false end.

Definition str_eqb (a b : str) : bool :=
  match str_compare a b with Eq => true | _ => false end.

(** [text.startswith(prefix)] *)
Fixpoint startswith (text prefix : str) : bool :=
  match prefix, text with
  | [], _ => true
  | _ :: _, [] => false
  | p :: ps, t :: ts => N.eqb p t && startswith ts ps
  end.

(** [text.find(sub)]: index of the first occurrence, [-1] when absent. *)
Fixpoint find_from (i : Z) (text sub : str) : Z :=
  if startswith text sub then i
  else match text with
       | [] => -1
       | _ :: ts => find_from (i + 1) ts sub
       end.

Definition find (text sub : str) : Z := find_from 0 text sub.

(** [sub in text] *)
Fixpoint str_in (sub text : str) : bool :=
  startswith text sub
  || match text with
     | [] => false
     | _ :: ts => str_in sub ts
     end.

(** [text.ljust(width)] and [text.center(width, fill)] (CPython's rounding:
    the left margin gets the extra cell when both the margin and the width
    are odd). *)
Definition ljust (text : str) (width : Z) : str :=
  text ++ repeat 32%N (Z.to_nat (width - len text)).

Definition center (text : str) (width : Z) (fill : char) : str :=
  let marg := width - len text in
  if marg <=? 0 then text
  else
    let left := marg / 2 + Z.land (Z.land marg width) 1 in
    repeat fill (Z.to_nat left) ++ text ++ repeat fill (Z.to_nat (marg - left)).

(** [text.split(" ", 1)]: [None] stands for the one-element list (no space
    in [text]), [Some (a, b)] for the two-element list. *)
Fixpoint split_once (text : str) : option (str * str) :=
  match text with
  | [] => None
  | c :: ts =>
      if N.eqb c 32%N then Some ([], ts)
      else match split_once ts with
           | Some (a, b) => Some (c :: a, b)
           | None => None
           end
  end.

(** [text.rsplit(" ", 1)] *)
Definition rsplit_once (text : str) : option (str * str) :=
  match split_once (rev text) with
  | Some (b, a) => Some (rev a, rev b)
  | None => None
  end.

(** ** Lists *)

(** [l[i]] *)
Definition getitem {A : Type} (l : list A) (i : Z) : option A :=
  if 0 <=? i then nth_error l (Z.to_nat i)
  else if - len l <=? i then nth_error l (Z.to_nat (len l + i))
  else None.

(** [x in l] and [l.index(x)] on lists of strings. *)
Definition list_in (x : str) (l : list str) : bool := existsb (str_eqb x) l.

Fixpoint index (x : str) (l : list str) : option Z :=
  match l with
  | [] => None
  | y :: l' =>
      if str_eqb y x then Some 0
      else match index x l' with
           | Some i => Some (i + 1)
           | None => None
           end
  end.

(** ** [sorted(items, key=...)]

    Python's sort is stable and compares keys with [<] only.  A stable sort
    is determined by its input and the order on keys, so it is modelled by
    the stable insertion sort. *)
Section Sorting.
Context {A K : Type} (ltb : K -> K -> bool) (key : A -> K).

Fixpoint insert_sorted (x : A) (l : list A) : list A :=
  match l with
  | [] => [x]
  | y :: l' =>
      if ltb (key y) (key x) then y :: insert_sorted x l'
      else x :: y :: l'
  end.

Definition sorted (items : list A) : list A :=
  fold_right insert_sorted [] items.

(** [a] may stand before [b] in a sorted list. *)
Definition ordered (a b : A) : Prop := ltb (key b) (key a) = false.

(** [k] and [k'] are equal for the order. *)
Definition same_rank (k k' : K) : bool := negb (ltb k k') && negb (ltb k' k).
End Sorting.

(** Order on the key tuples [(int, int, str)]. *)
Definition key_t : Type := Z * Z * str.

Definition tuple_ltb (a b : key_t) : bool :=
  let '(a1, a2, a3) := a in
  let '(b1, b2, b3) := b in
  if a1 <? b1 then true
  else if b1 <? a1 then false
  else if a2 <? b2 then true
  else if b2 <? a2 then false
  else str_ltb a3 b3.

(** ** Exceptions *)

Inductive exn := IndexError | ValueError | OverflowError | KeyboardInterrupt.

Inductive result (A : Type) :=
| Ok (a : A)
| Raise (e : exn).
Arguments Ok {A} a.
Arguments Raise {A} e.

Definition bind {A B : Type} (r : result A) (k : A -> result B) : result B :=
  match r with
  | Ok a => k a
  | Raise e => Raise e
  end.

Notation "x <- r ;; k" := (bind r (fun x => k))
  (at level 61, r at next level, right associativity).

Definition of_option {A : Type} (e : exn) (o : option A) : result A :=
  match o with
  | Some a => Ok a
  | None => Raise e
  end.

(** ** ASCII instances of the interpreter's string built-ins *)

Definition ascii_lower_char (c : char) : char :=
  if (65 <=? c)%N && (c <=? 90)%N then (c + 32)%N else c.

Definition ascii_upper_char (c : char) : char :=
  if (97 <=? c)%N && (c <=? 122)%N then (c - 32)%N else c.

Definition ascii_lower (s : str) : str := List.map ascii_lower_char s.
Definition ascii_upper (s : str) : str := List.map ascii_upper_char s.

(** The code points below 128 on which [str.isspace] holds. *)
Definition ascii_isspace (c : char) : bool :=
  ((9 <=? c)%N && (c <=? 13)%N) || ((28 <=? c)%N && (c <=? 32)%N).

(** ** The session *)

Record Session := mkSession {
  prompt_text : str;
  choices : list str;
  max_rows : Z;
  panel_width : Z;
  panel_inner_width : Z;
  input_text : str;
  filtered_items : list str;
  selected_index : Z;
  view_start : Z
}.

Definition set_input_text (s : Session) (t : str) : Session :=
  mkSession (prompt_text s) (choices s) (max_rows s) (panel_width s)
    (panel_inner_width s) t (filtered_items s) (selected_index s) (view_start s).

Definition set_filtered_items (s : Session) (l : list str) : Session :=
  mkSession (prompt_text s) (choices s) (max_rows s) (panel_width s)
    (panel_inner_width s) (input_text s) l (selected_index s) (view_start s).

Definition set_selected_index (s : Session) (i : Z) : Session :=
  mkSession (prompt_text s) (choices s) (max_rows s) (panel_width s)
    (panel_inner_width s) (input_text s) (filtered_items s) i (view_start s).

Definition set_view_start (s : Session) (v : Z) : Session :=
  mkSession (prompt_text s) (choices s) (max_rows s) (panel_width s)
    (panel_inner_width s) (input_text s) (filtered_items s) (selected_index s) v.

Definition is_empty {A : Type} (l : list A) : bool :=
  match l with
  | [] => true
  | _ :: _ => false
  end.

(** The keys bound in [run], and what a handler leaves behind. *)
Inductive Key :=
| KeyUp | KeyDown | KeyTab | KeyEnter | KeyEscape | KeyBackspace
| KeyCtrlU | KeyCtrlC | KeyChar (c : char).

Inductive Nav := NavUp | NavDown.

Inductive Outcome :=
| Continue (s : Session)
| Exit (text : str).

Definition bound_chars : str :=
  lit "abcdefghijklmnopqrstuvwxyzABCDEFGHIJKLMNOPQRSTUVWXYZ0123456789.-_ ".

Section Ui.

(** [str.lower] and [str.isspace] of the interpreter. *)
Variable lower : str -> str.
Variable isspace : char -> bool.

(** [text.strip()] *)
Fixpoint lstrip (text : str) : str :=
  match text with
  | [] => []
  | c :: ts => if isspace c then lstrip ts else text
  end.

Definition rstrip (text : str) : str := rev (lstrip (rev text)).

Definition strip (text : str) : str := rstrip (lstrip text).

(** The [sort_key] closure of [_sort_items]. *)
Definition sort_key (lowered : str) (item : str) : key_t :=
  let text := lower item in
  let starts_with := if startswith text lowered then 0 else 1 in
  let position := find text lowered in
  let position := if 0 <=? position then position else len text in
  (starts_with, position, text).

Definition _sort_items (items : list str) (query : str) : list str :=
  if is_empty items then []
  else if is_empty query then sorted str_ltb (fun item => item) items
  else
    let lowered := lower query in
    sorted tuple_ltb (sort_key lowered) items.

(** Lines 79-86 of [filter_items]: the new filtered list, as a function of
    the candidates and of the raw input text. *)
Definition recompute (source : list str) (input : str) : list str :=
  let query := strip input in
  let filtered :=
    if is_empty query then source
    else
      let lowered := lower query in
      List.filter (fun item => str_in lowered (lower item)) source in
  _sort_items filtered query.

Definition _ensure_selection_visible (reset_view : bool) (s : Session)
  : Session :=
  if is_empty (filtered_items s) then set_view_start s 0
  else if max_rows s <=? 0 then set_view_start s 0
  else
    let max_view_start := Z.max (len (filtered_items s) - max_rows s) 0 in
    if reset_view then
      set_view_start s (Z.max 0 (Z.min (selected_index s) max_view_start))
    else
      let s1 :=
        if selected_index s <? view_start s then
          set_view_start s (selected_index s)
        else if view_start s + max_rows s <=? selected_index s then
          set_view_start s (selected_index s - max_rows s + 1)
        else s in
      set_view_start s1 (Z.max 0 (Z.min (view_start s1) max_view_start)).

(** [previous_value] is [None] or a string; [truthy] is its truth value,
    [opt_in] is [previous_value in sorted_items]. *)
Definition truthy (v : option str) : bool :=
  match v with
  | Some (_ :: _) => true
  | _ => false
  end.

Definition opt_in (v : option str) (l : list str) : bool :=
  match v with
  | Some x => list_in x l
  | None => false
  end.

(** Lines 75-77 of [filter_items]. *)
Definition previous_value (s : Session) : option str :=
  if negb (is_empty (filtered_items s))
     && (0 <=? selected_index s)
     && (selected_index s <? len (filtered_items s))
  then getitem (filtered_items s) (selected_index s)
  else None.

Definition filter_items (s : Session) : Session :=
  let previous_value := previous_value s in
  let sorted_items := recompute (choices s) (input_text s) in
  let s := set_filtered_items s sorted_items in
  if is_empty sorted_items then
    set_view_start (set_selected_index s 0) 0
  else
    let s :=
      if truthy previous_value && opt_in previous_value sorted_items then
        match previous_value with
        | Some v =>
            match index v sorted_items with
            | Some i => set_selected_index s i
            | None => s
            end
        | None => s
        end
      else set_selected_index s 0 in
    _ensure_selection_visible (negb (opt_in previous_value sorted_items)) s.

(** [__init__] *)
Definition init (prompt : str) (cs : list str) (rows : Z) : Session :=
  filter_items (mkSession prompt cs rows 80 (80 - 4) [] [] 0 0).

(** *** Key handlers of [run] *)

Definition _accept_selection (s : Session) : result Session :=
  if is_empty (filtered_items s) then Ok s
  else
    v <- of_option IndexError
           (getitem (filtered_items s) (selected_index s)) ;;
    Ok (set_input_text s v).

Definition key_up (s : Session) : Session :=
  if negb (is_empty (filtered_items s)) && (0 <? selected_index s) then
    _ensure_selection_visible false
      (set_selected_index s (selected_index s - 1))
  else s.

Definition key_down (s : Session) : Session :=
  if negb (is_empty (filtered_items s))
     && (selected_index s <? len (filtered_items s) - 1) then
    _ensure_selection_visible false
      (set_selected_index s (selected_index s + 1))
  else s.

Definition key_tab (s : Session) : result Session :=
  if is_empty (filtered_items s) then Ok s
  else
    s1 <- _accept_selection s ;;
    Ok (_ensure_selection_visible false (filter_items s1)).

(** The value handed to [event.app.exit(result=...)]. *)
Definition key_enter (s : Session) : result str :=
  let text := input_text s in
  if is_empty text && negb (is_empty (filtered_items s)) then
    of_option IndexError (getitem (filtered_items s) (selected_index s))
  else Ok text.

Definition key_escape (s : Session) : Session :=
  filter_items (set_input_text s []).

Definition key_backspace (s : Session) : Session :=
  if is_empty (input_text s) then s
  else filter_items (set_input_text s (removelast (input_text s))).

Definition key_ctrl_u (s : Session) : Session :=
  filter_items (set_input_text s []).

Definition key_char (c : char) (s : Session) : Session :=
  filter_items (set_input_text s (input_text s ++ [c])).

(** One key event: the session goes on, the application exits with a
    text, or an exception leaves [app.run()]. *)
Definition handle (k : Key) (s : Session) : result Outcome :=
  match k with
  | KeyUp => Ok (Continue (key_up s))
  | KeyDown => Ok (Continue (key_down s))
  | KeyTab => s' <- key_tab s ;; Ok (Continue s')
  | KeyEnter => text <- key_enter s ;; Ok (Exit text)
  | KeyEscape => Ok (Continue (key_escape s))
  | KeyBackspace => Ok (Continue (key_backspace s))
  | KeyCtrlU => Ok (Continue (key_ctrl_u s))
  | KeyCtrlC => Raise KeyboardInterrupt
  | KeyChar c =>
      if existsb (N.eqb c) bound_chars then Ok (Continue (key_char c s))
      else Ok (Continue s)
  end.

(** The states a session goes through. *)
Inductive reachable : Session -> Prop :=
| reach_init : forall prompt cs rows, reachable (init prompt cs rows)
| reach_step : forall s k s',
    reachable s -> handle k s = Ok (Continue s') -> reachable s'.

(** The states after each event of a run of navigation keys. *)
Fixpoint nav_trace (ks : list Nav) (s : Session) : list Session :=
  match ks with
  | [] => []
  | k :: ks' =>
      let s' := match k with NavUp => key_up s | NavDown => key_down s end in
      s' :: nav_trace ks' s'
  end.

(** [app.run()] on a sequence of key events: the text the application exits
    with, [None] when the events end before the application exits. *)
Fixpoint run_keys (ks : list Key) (s : Session) : result (option str) :=
  match ks with
  | [] => Ok None
  | k :: ks' =>
      o <- handle k s ;;
      match o with
      | Continue s' => run_keys ks' s'
      | Exit text => Ok (Some text)
      end
  end.

End Ui.

(** ** Rendering *)

Definition FormattedText : Type := list (String.string * str).

Definition ellipsis : char := 8230%N.      (* U+2026 *)
Definition marker : char := 8250%N.        (* U+203A *)
Definition middle_dot : char := 183%N.     (* U+00B7 *)
Definition box_h : char := 9472%N.         (* U+2500 *)
Definition box_v : char := 9474%N.         (* U+2502 *)
Definition box_tl : char := 9484%N.        (* U+250C *)
Definition box_tr : char := 9488%N.        (* U+2510 *)
Definition box_bl : char := 9492%N.        (* U+2514 *)
Definition box_br : char := 9496%N.        (* U+2518 *)
Definition newline : char := 10%N.
Definition space : char := 32%N.

Definition _truncate (text : str) (width : Z) : str :=
  if width <=? 0 then []
  else if len text <=? width then text
  else if width =? 1 then [ellipsis]
  else firstn (Z.to_nat (width - 1)) text ++ [ellipsis].

Definition _panel_header (s : Session) (title : str) : FormattedText :=
  let inner := [space] ++ title ++ [space] in
  let line_len := panel_width s - 2 in
  let header := center inner line_len box_h in
  [("class:panel-border"%string, [box_tl] ++ header ++ [box_tr; newline])].

Definition _panel_footer (s : Session) : FormattedText :=
  let line_len := panel_width s - 2 in
  [("class:panel-border"%string,
    [box_bl] ++ repeat box_h (Z.to_nat line_len) ++ [box_br; newline])].

Definition _panel_row (s : Session) (text : str) (style : String.string)
  : FormattedText :=
  let padded := ljust text (panel_inner_width s) in
  [("class:panel-border"%string, [box_v; space]);
   (style, padded);
   ("class:panel-border"%string, [space; box_v; newline])].

Definition _format_item_columns (item : str) (content_width : Z) : str :=
  if content_width <=? 0 then []
  else
    match split_once item with
    | None => _truncate item content_width
    | Some (glyph, rest) =>
        match rsplit_once rest with
        | None => _truncate item content_width
        | Some (name, code) =>
            let separator := [space; middle_dot; space] in
            let separators_len := len separator * 2 in
            let base_len := len glyph + len code + separators_len in
            if content_width <=? base_len + 1 then
              _truncate item content_width
            else
              let name_space := content_width - base_len in
              let name_text := _truncate name name_space in
              let name_text :=
                if len name_text <? name_space then ljust name_text name_space
                else name_text in
              glyph ++ separator ++ name_text ++ separator ++ code
        end
    end.

(** [range(n)] and a [for] loop whose body extends [lines]. *)
Definition range (n : Z) : list Z :=
  List.map Z.of_nat (seq 0 (Z.to_nat n)).

Fixpoint for_extend (xs : list Z) (body : Z -> result FormattedText)
  : result FormattedText :=
  match xs with
  | [] => Ok []
  | x :: xs' =>
      row <- body x ;;
      rest <- for_extend xs' body ;;
      Ok (row ++ rest)
  end.

(** The body of the loop over the display slots of [render_panel]. *)
Definition render_slot (s : Session) (idx : Z) : result FormattedText :=
  let actual_index := view_start s + idx in
  if actual_index <? len (filtered_items s) then
    item <- of_option IndexError (getitem (filtered_items s) actual_index) ;;
    let is_selected := actual_index =? selected_index s in
    let prefix := if is_selected then [marker; space] else [space; space] in
    let formatted :=
      _format_item_columns item (panel_inner_width s - len prefix) in
    let content := prefix ++ formatted in
    let style :=
      if is_selected then "class:selected-line"%string
      else "class:panel-line"%string in
    Ok (_panel_row s content style)
  else Ok (_panel_row s [] "class:panel-placeholder"%string).

Definition render_panel (s : Session) : result FormattedText :=
  body <-
    (if is_empty (filtered_items s) then
       let message := _truncate (lit "Tidak ada hasil") (panel_inner_width s) in
       placeholders <-
         for_extend (range (max_rows s - 1))
           (fun _ => Ok (_panel_row s [] "class:panel-placeholder"%string)) ;;
       Ok (_panel_header s (lit "No results")
           ++ _panel_row s message "class:no-results"%string
           ++ placeholders)
     else
       rows <- for_extend (range (max_rows s)) (render_slot s) ;;
       Ok (_panel_header s (lit "NerdIcons") ++ rows)) ;;
  Ok (body ++ _panel_footer s).

Definition render_content (s : Session) : result FormattedText :=
  let parts :=
    [("class:prompt"%string, prompt_text s);
     ("class:input"%string, input_text s)] in
  parts <-
    (if negb (is_empty (filtered_items s)) then
       panel <- render_panel s ;;
       Ok (parts ++ [(EmptyString, [newline; newline])] ++ panel
           ++ [(EmptyString, [newline])])
     else Ok parts) ;;
  Ok (parts
      ++ [("class:footer"%string,
           lit "Tab: isi dari pilihan | Ctrl+C: batal")]).

(** ** The dataset loader *)

(** [chr(i)]: the argument is converted to a C [int] first. *)
Definition chr (i : Z) : result char :=
  if (i <? - 2147483648) || (2147483647 <? i) then Raise OverflowError
  else if (0 <=? i) && (i <? 1114112) then Ok (Z.to_N i)
  else Raise ValueError.

Section Loader.

(** [int(text, 16)], [None] for [ValueError]; and [str.upper]. *)
Variable int16 : str -> option Z.
Variable upper : str -> str.

(** The [try] block of the loop body. *)
Definition parse_glyph (hex_value : str) : result char :=
  code_point <- of_option ValueError (int16 hex_value) ;;
  chr code_point.

(** The loop over [raw.items()], in the order of the mapping. *)
Fixpoint load_items (raw : list (str * str)) (items : list str)
  : result (list str) :=
  match raw with
  | [] => Ok items
  | (name, hex_value) :: raw' =>
      match parse_glyph hex_value with
      | Ok glyph =>
          load_items raw'
            (items ++ [[glyph] ++ [space] ++ name ++ lit " (U+"
                       ++ upper hex_value ++ lit ")"])
      | Raise ValueError => load_items raw' items
      | Raise e => Raise e
      end
  end.

(** [file] is the parsed content of the data file, [None] when the file
    does not exist. *)
Definition load_nerdicons (file : option (list (str * str)))
  : result (list str) :=
  match file with
  | None => Ok []
  | Some raw => load_items raw []
  end.

End Loader.

(** [int(text, 16)] on the strings made of the digits [0-9a-fA-F] only, and
    [None] on the other strings without a sign, a prefix, an underscore, a
    space or a non-ASCII digit. *)
Definition hex_digit (c : char) : option Z :=
  if (48 <=? c)%N && (c <=? 57)%N then Some (Z.of_N c - 48)
  else if (97 <=? c)%N && (c <=? 102)%N then Some (Z.of_N c - 87)
  else if (65 <=? c)%N && (c <=? 70)%N then Some (Z.of_N c - 55)
  else None.

Fixpoint hex_digits (acc : Z) (text : str) : option Z :=
  match text with
  | [] => Some acc
  | c :: ts =>
      match hex_digit c with
      | Some d => hex_digits (16 * acc + d) ts
      | None => None
      end
  end.

Definition hex_plain (text : str) : option Z :=
  match text with
  | [] => None
  | _ :: _ => hex_digits 0 text
  end.

(** ** Notions used in the statements *)

(** [sub] occurs in [text]; [sub] occurs in [text] at offset [n]. *)
Definition occurs_in (sub text : str) : Prop :=
  exists pre post, text = pre ++ sub ++ post.

Definition occurs_at (n : Z) (sub text : str) : Prop :=
  exists pre post, text = pre ++ sub ++ post /\ len pre = n.

Definition first_occurrence (n : Z) (sub text : str) : Prop :=
  occurs_at n sub text /\ forall m, occurs_at m sub text -> n <= m.

Definition is_prefix (sub text : str) : Prop :=
  exists post, text = sub ++ post.

(** Orders: [a <= b] on strings and on key tuples. *)
Definition str_le (a b : str) : Prop := str_compare a b <> Gt.

Definition key_le (a b : key_t) : Prop :=
  let '(a1, a2, a3) := a in
  let '(b1, b2, b3) := b in
  a1 < b1 \/ (a1 = b1 /\ (a2 < b2 \/ (a2 = b2 /\ str_le a3 b3))).

Definition str_eq_dec : forall a b : str, {a = b} + {a <> b} :=
  list_eq_dec N.eq_dec.

(** [clamp x lo hi] *)
Definition clamp (x lo hi : Z) : Z := Z.max lo (Z.min x hi).

(** A window starting at [w] is within bounds and shows row [sel]. *)
Definition shows (rows size sel w : Z) : Prop :=
  (0 <= w <= Z.max (size - rows) 0) /\ (w <= sel < w + rows).


(** The minimal-adjust policy in the words of the specification. *)
Definition minimal_adjust_policy (rows size sel vs : Z) : Z :=
  let vs1 :=
    if sel <? vs then sel
    else if vs + rows <=? sel then sel - rows + 1
    else vs in
  clamp vs1 0 (Z.max (size - rows) 0).

(** [out] is a header, [n] panel rows and a footer. *)
Definition has_content_rows (s : Session) (out : FormattedText) (n : nat)
  : Prop :=
  exists title rows,
    List.length rows = n
    /\ out = _panel_header s title
             ++ List.concat
                  (List.map (fun r => _panel_row s (fst r) (snd r)) rows)
             ++ _panel_footer s.

(** The state invariant of a session. *)
Definition sel_ok (s : Session) : Prop :=
  match filtered_items s with
  | [] => selected_index s = 0
  | _ :: _ => 0 <= selected_index s < len (filtered_items s)
  end.

Definition view_ok (s : Session) : Prop :=
  match filtered_items s with
  | [] => view_start s = 0
  | _ :: _ =>
      if max_rows s <=? 0 then view_start s = 0
      else shows (max_rows s) (len (filtered_items s)) (selected_index s)
             (view_start s)
  end.

(** The filtered list is the one computed from the candidates and the
    input text. *)
Definition consistent (lower : str -> str) (isspace : char -> bool)
  (s : Session) : Prop :=
  filtered_items s = recompute lower isspace (choices s) (input_text s).

Definition inv (lower : str -> str) (isspace : char -> bool) (s : Session)
  : Prop :=
  consistent lower isspace s /\ sel_ok s /\ view_ok s.

(** The candidates kept for the trimmed query [t]. *)
Definition matches (lower : str -> str) (t : str) (item : str) : bool :=
  str_in (lower t) (lower item).

(** The candidate of a dataset entry in the words of the specification,
    ["<glyph> <name> (U+<HEX>)"], and the candidates an entry contributes:
    one when its value is the code of a glyph, none otherwise. *)
Definition candidate_of (upper : str -> str) (glyph : char)
  (name hex_value : str) : str :=
  [glyph] ++ lit " " ++ name ++ lit " (U+" ++ upper hex_value ++ lit ")".

Definition entry_candidates (int16 : str -> option Z) (upper : str -> str)
  (e : str * str) : list str :=
  match int16 (snd e) with
  | Some i =>
      if (0 <=? i) && (i <? 1114112)
      then [candidate_of upper (Z.to_N i) (fst e) (snd e)]
      else []
  | None => []
  end.

(** The number of code points of a run of fragments. *)
Definition text_width (ft : FormattedText) : Z :=
  fold_right (fun frag acc => len (snd frag) + acc) 0 ft.

(** [c] is one of the characters bound to a key. *)
Definition bound (c : char) : Prop := existsb (N.eqb c) bound_chars = true.

(** The state a session is left in by a sequence of handlers that go on. *)
Definition same_settings (s s' : Session) : Prop :=
  prompt_text s' = prompt_text s
  /\ choices s' = choices s
  /\ max_rows s' = max_rows s
  /\ panel_width s' = panel_width s
  /\ panel_inner_width s' = panel_inner_width s.

(** ** Strings: comparison *)

Lemma str_compare_refl (a : str) : str_compare a a = Eq.
Proof.
  induction a as [|x a IH]; simpl; [reflexivity|].
  now rewrite N.compare_refl.
Qed.

Lemma str_compare_eq (a b : str) : str_compare a b = Eq -> a = b.
Proof.
  revert b; induction a as [|x a IH]; intros [|y b]; simpl;
    try discriminate; [reflexivity|].
  destruct (N.compare_spec x y); try discriminate.
  intros H'; subst; f_equal; auto.
Qed.

Lemma str_compare_antisym (a b : str) :
  str_compare b a = CompOpp (str_compare a b).
Proof.
  revert b; induction a as [|x a IH]; intros [|y b]; simpl; try reflexivity.
  rewrite (N.compare_antisym x y).
  destruct (x ?= y)%N; simpl; auto.
Qed.

Lemma str_eqb_eq (a b : str) : str_eqb a b = true <-> a = b.
Proof.
  unfold str_eqb; split.
  - destruct (str_compare a b) eqn:E; try discriminate.
    intros _; now apply str_compare_eq.
  - intros ->; now rewrite str_compare_refl.
Qed.

Lemma str_eqb_refl (a : str) : str_eqb a a = true.
Proof. now apply str_eqb_eq. Qed.

Lemma str_eqb_neq (a b : str) : str_eqb a b = false <-> a <> b.
Proof.
  split.
  - intros H E; apply str_eqb_eq in E; congruence.
  - intros H; destruct (str_eqb a b) eqn:E; [|reflexivity].
    apply str_eqb_eq in E; contradiction.
Qed.

Lemma str_le_refl (a : str) : str_le a a.
Proof. unfold str_le; now rewrite str_compare_refl. Qed.

Lemma str_le_trans (a b c : str) : str_le a b -> str_le b c -> str_le a c.
Proof.
  unfold str_le; revert b c.
  induction a as [|x a IH]; intros [|y b] [|z c]; simpl; try congruence.
  destruct (N.compare_spec x y) as [->|Hxy|Hxy]; try congruence.
  - destruct (N.compare_spec y z); try congruence. apply IH.
  - intros _. destruct (N.compare_spec y z) as [->|Hyz|Hyz]; try congruence.
    + intros _. destruct (N.compare_spec x z); try congruence; lia.
    + intros _. destruct (N.compare_spec x z); try congruence; lia.
Qed.

Lemma str_le_antisym (a b : str) : str_le a b -> str_le b a -> a = b.
Proof.
  unfold str_le; rewrite (str_compare_antisym a b).
  destruct (str_compare a b) eqn:E; simpl; try congruence.
  intros _ _; now apply str_compare_eq.
Qed.

Lemma str_le_total (a b : str) : str_le a b \/ str_le b a.
Proof.
  unfold str_le; rewrite (str_compare_antisym a b).
  destruct (str_compare a b); simpl; auto; left + right; congruence.
Qed.

Lemma str_ltb_false (a b : str) : str_ltb a b = false <-> str_le b a.
Proof.
  unfold str_ltb, str_le; rewrite (str_compare_antisym a b).
  destruct (str_compare a b); simpl; split; congruence.
Qed.

Lemma str_ltb_true (a b : str) : str_ltb a b = true -> str_le a b.
Proof.
  unfold str_ltb, str_le; destruct (str_compare a b); congruence.
Qed.

Lemma str_le_nil (a : str) : str_le [] a.
Proof. unfold str_le; destruct a; simpl; congruence. Qed.

(** ** Strings: prefixes and occurrences *)

Lemma startswith_spec (text sub : str) :
  startswith text sub = true <-> is_prefix sub text.
Proof.
  unfold is_prefix; revert text.
  induction sub as [|p ps IH]; intros text; simpl.
  - split; [intros _; now exists text | intros _; now destruct text].
  - destruct text as [|t ts].
    + split; [discriminate | intros [post H]; discriminate].
    + simpl; rewrite andb_true_iff, N.eqb_eq, IH. split.
      * intros [-> [post ->]]; now exists post.
      * intros [post H]; injection H as -> ->; split; [reflexivity|now exists post].
Qed.

Lemma startswith_refl (text : str) : startswith text text = true.
Proof. apply startswith_spec; exists []; now rewrite app_nil_r. Qed.

Lemma is_prefix_le (sub text : str) : is_prefix sub text -> str_le sub text.
Proof.
  intros [post ->]; unfold str_le.
  induction sub as [|p ps IH]; simpl.
  - destruct post; congruence.
  - now rewrite N.compare_refl.
Qed.

Lemma str_in_spec (sub text : str) :
  str_in sub text = true <-> occurs_in sub text.
Proof.
  unfold occurs_in; induction text as [|t ts IH]; cbn [str_in].
  - rewrite orb_false_r, startswith_spec. split.
    + intros [post H]; exists [], post; exact H.
    + intros [pre [post H]]. destruct pre; [now exists post|discriminate].
  - rewrite orb_true_iff, startswith_spec, IH. split.
    + intros [[post H]|[pre [post H]]].
      * exists [], post; exact H.
      * exists (t :: pre), post; simpl; now rewrite H.
    + intros [[|c pre] [post H]].
      * left; now exists post.
      * right; injection H as -> ->; now exists pre, post.
Qed.

Lemma str_in_refl (text : str) : str_in text text = true.
Proof. apply str_in_spec; exists [], []; now rewrite app_nil_r. Qed.

Lemma find_from_present (text sub : str) :
  str_in sub text = true ->
  forall i, find_from i text sub = i + find_from 0 text sub
            /\ 0 <= find_from 0 text sub.
Proof.
  induction text as [|t ts IH]; cbn [str_in find_from]; intros H i.
  - rewrite orb_false_r in H; rewrite H; lia.
  - destruct (startswith (t :: ts) sub); [lia|]. cbn [orb] in H.
    destruct (IH H (i + 1)) as [-> _].
    destruct (IH H (0 + 1)) as [-> ?]. lia.
Qed.

Lemma find_absent (text sub : str) :
  str_in sub text = false -> forall i, find_from i text sub = -1.
Proof.
  induction text as [|t ts IH]; cbn [str_in find_from]; intros H i;
    apply orb_false_iff in H as [H1 H2]; rewrite H1; auto.
Qed.

Lemma find_nonneg_iff (text sub : str) :
  0 <= find text sub <-> str_in sub text = true.
Proof.
  unfold find; destruct (str_in sub text) eqn:E.
  - destruct (find_from_present _ _ E 0); tauto.
  - rewrite (find_absent _ _ E); split; [lia|discriminate].
Qed.

Lemma find_startswith (text sub : str) :
  startswith text sub = true -> find text sub = 0.
Proof.
  unfold find; destruct text; cbn [find_from]; intros ->; reflexivity.
Qed.

Lemma find_first_occurrence (text sub : str) :
  str_in sub text = true -> first_occurrence (find text sub) sub text.
Proof.
  unfold find, first_occurrence, occurs_at.
  induction text as [|t ts IH]; cbn [str_in find_from]; intros H.
  - rewrite orb_false_r in H; rewrite H.
    apply startswith_spec in H as [post H]. split.
    + exists [], post; split; [exact H|reflexivity].
    + intros m [pre [post' [_ <-]]]; unfold len; lia.
  - destruct (startswith (t :: ts) sub) eqn:E.
    + apply startswith_spec in E as [post E]. split.
      * exists [], post; split; [exact E|reflexivity].
      * intros m [pre [post' [_ <-]]]; unfold len; lia.
    + cbn [orb] in H. destruct (IH H) as [[pre [post [Ht Hl]]] Hmin].
      destruct (find_from_present _ _ H (0 + 1)) as [-> Hpos]. split.
      * exists (t :: pre), post; split; [simpl; now rewrite Ht|].
        unfold len in *; simpl List.length; lia.
      * intros m [[|c pre'] [post' [Hm <-]]].
        -- exfalso. assert (startswith (t :: ts) sub = true)
             by (apply startswith_spec; now exists post').
           congruence.
        -- injection Hm as -> Hm.
           assert (find_from 0 ts sub <= len pre')
             by (apply Hmin; now exists pre', post').
           unfold len in *; simpl List.length; lia.
Qed.

(** ** The stable sort *)

Section SortingFacts.
Context {A K : Type} (ltb : K -> K -> bool) (key : A -> K).

Hypothesis ltb_asym : forall x y, ltb x y = true -> ltb y x = false.
Hypothesis le_trans :
  forall x y z, ltb y x = false -> ltb z y = false -> ltb z x = false.

Lemma insert_sorted_perm (x : A) (l : list A) :
  Permutation (x :: l) (insert_sorted ltb key x l).
Proof.
  induction l as [|y l IH]; simpl; [apply Permutation_refl|].
  destruct (ltb (key y) (key x)); [|apply Permutation_refl].
  eapply Permutation_trans; [apply perm_swap|].
  now apply perm_skip.
Qed.

Lemma sorted_perm (l : list A) : Permutation l (sorted ltb key l).
Proof.
  induction l as [|x l IH]; simpl; [constructor|].
  eapply Permutation_trans; [|apply insert_sorted_perm].
  now apply perm_skip.
Qed.

Lemma insert_sorted_ordered (x : A) (l : list A) :
  StronglySorted (ordered ltb key) l ->
  StronglySorted (ordered ltb key) (insert_sorted ltb key x l).
Proof.
  induction l as [|y l IH]; simpl; intros H.
  - repeat constructor.
  - inversion H as [|? ? Hs Hall]; subst.
    destruct (ltb (key y) (key x)) eqn:E.
    + constructor; [now apply IH|].
      eapply Permutation_Forall; [apply insert_sorted_perm|].
      constructor; [|exact Hall].
      unfold ordered; now apply ltb_asym.
    + constructor; [exact H|].
      constructor; [exact E|].
      eapply Forall_impl; [|exact Hall].
      unfold ordered; intros z Hz; eapply le_trans; eauto.
Qed.

Lemma sorted_ordered (l : list A) : StronglySorted (ordered ltb key) (sorted ltb key l).
Proof.
  induction l as [|x l IH]; simpl; [constructor|].
  now apply insert_sorted_ordered.
Qed.

(** Stability: the items of one rank keep their relative order. *)
Lemma insert_sorted_rank (k : K) (x : A) (l : list A) :
  List.filter (fun a => same_rank ltb k (key a)) (insert_sorted ltb key x l)
  = List.filter (fun a => same_rank ltb k (key a)) (x :: l).
Proof.
  induction l as [|y l IH]; [reflexivity|].
  cbn [insert_sorted]. destruct (ltb (key y) (key x)) eqn:E; [|reflexivity].
  cbn [List.filter] in *. rewrite IH.
  destruct (same_rank ltb k (key x)) eqn:Ex; [|reflexivity].
  destruct (same_rank ltb k (key y)) eqn:Ey; [|reflexivity].
  exfalso. unfold same_rank in Ex, Ey.
  apply andb_true_iff in Ex as [Ex _], Ey as [_ Ey].
  apply negb_true_iff in Ex, Ey.
  rewrite (le_trans Ex Ey) in E. discriminate.
Qed.

Lemma sorted_stable (k : K) (l : list A) :
  List.filter (fun a => same_rank ltb k (key a)) (sorted ltb key l)
  = List.filter (fun a => same_rank ltb k (key a)) l.
Proof.
  induction l as [|x l IH]; [reflexivity|].
  cbn [sorted fold_right]. rewrite insert_sorted_rank.
  cbn [List.filter]. unfold sorted in IH. now rewrite IH.
Qed.

(** The head of a sorted list stands before every item. *)
Lemma sorted_head (l : list A) (h : A) (rest : list A) :
  sorted ltb key l = h :: rest ->
  forall x, In x l -> ltb (key x) (key h) = false.
Proof.
  intros E x Hx.
  pose proof (sorted_ordered l) as Hs. rewrite E in Hs.
  assert (Hin : In x (h :: rest)).
  { rewrite <- E. eapply Permutation_in; [apply sorted_perm|exact Hx]. }
  inversion Hs as [|? ? _ Hall]; subst.
  destruct Hin as [<-|Hin].
  - destruct (ltb (key h) (key h)) eqn:F; [|reflexivity].
    now rewrite (ltb_asym F) in F.
  - rewrite Forall_forall in Hall. now apply Hall.
Qed.
End SortingFacts.

Lemma str_ltb_asym (x y : str) : str_ltb x y = true -> str_ltb y x = false.
Proof. intros H; apply str_ltb_false; now apply str_ltb_true. Qed.

Lemma str_ltb_le_trans (x y z : str) :
  str_ltb y x = false -> str_ltb z y = false -> str_ltb z x = false.
Proof.
  rewrite !str_ltb_false; intros; eapply str_le_trans; eauto.
Qed.

Lemma tuple_ltb_false (a b : key_t) : tuple_ltb b a = false <-> key_le a b.
Proof.
  destruct a as [[a1 a2] a3], b as [[b1 b2] b3]; unfold tuple_ltb, key_le.
  destruct (Z.ltb_spec b1 a1), (Z.ltb_spec a1 b1),
    (Z.ltb_spec b2 a2), (Z.ltb_spec a2 b2);
    try rewrite str_ltb_false; split; intros HH;
    first
      [ discriminate HH
      | reflexivity
      | left; lia
      | right; split; [lia|left; lia]
      | right; split; [lia|right; split; [lia|exact HH]]
      | destruct HH as [?|[? [?|[? ?]]]];
        first [assumption | exfalso; lia] ].
Qed.

Lemma key_le_trans (a b c : key_t) : key_le a b -> key_le b c -> key_le a c.
Proof.
  destruct a as [[a1 a2] a3], b as [[b1 b2] b3], c as [[c1 c2] c3].
  unfold key_le.
  intros [H|[-> [H|[-> H]]]] [H'|[-> [H'|[-> H']]]]; try (left; lia);
    try (right; split; [reflexivity|left; lia]).
  right; split; [reflexivity|right; split; [reflexivity|]].
  eapply str_le_trans; eauto.
Qed.

Lemma key_le_total (a b : key_t) : key_le a b \/ key_le b a.
Proof.
  destruct a as [[a1 a2] a3], b as [[b1 b2] b3]; unfold key_le.
  destruct (Z.lt_total a1 b1) as [?|[->|?]]; [tauto| |tauto].
  destruct (Z.lt_total a2 b2) as [?|[->|?]]; [tauto| |tauto].
  destruct (str_le_total a3 b3); tauto.
Qed.

Lemma tuple_ltb_asym (x y : key_t) :
  tuple_ltb x y = true -> tuple_ltb y x = false.
Proof.
  intros H. apply tuple_ltb_false.
  destruct (key_le_total x y) as [|H']; [assumption|].
  apply tuple_ltb_false in H'. congruence.
Qed.

Lemma tuple_ltb_le_trans (x y z : key_t) :
  tuple_ltb y x = false -> tuple_ltb z y = false -> tuple_ltb z x = false.
Proof.
  rewrite !tuple_ltb_false; intros; eapply key_le_trans; eauto.
Qed.

(** ** Lists *)

Lemma len_nonneg {A : Type} (l : list A) : 0 <= len l.
Proof. unfold len; lia. Qed.

Lemma len_cons {A : Type} (x : A) (l : list A) : len (x :: l) = len l + 1.
Proof. unfold len; simpl List.length; lia. Qed.

Lemma len_app {A : Type} (l l' : list A) : len (l ++ l') = len l + len l'.
Proof. unfold len; rewrite length_app; lia. Qed.

Lemma list_in_In (x : str) (l : list str) : list_in x l = true <-> In x l.
Proof.
  unfold list_in; rewrite existsb_exists; split.
  - intros [y [Hy E]]; apply str_eqb_eq in E; now subst.
  - intros H; exists x; split; [exact H|apply str_eqb_refl].
Qed.

Lemma index_In (x : str) (l : list str) :
  In x l ->
  exists i, index x l = Some i /\ 0 <= i < len l
            /\ nth_error l (Z.to_nat i) = Some x.
Proof.
  induction l as [|y l IH]; [intros []|]. intros H. cbn [index].
  destruct (str_eqb y x) eqn:E.
  - apply str_eqb_eq in E; subst. exists 0; rewrite len_cons.
    pose proof (len_nonneg l). repeat split; lia.
  - apply str_eqb_neq in E. destruct H as [H|H]; [contradiction|].
    destruct (IH H) as [i [-> [Hi Hn]]]. exists (i + 1); rewrite len_cons.
    repeat split; try lia.
    replace (Z.to_nat (i + 1)) with (S (Z.to_nat i)) by lia. exact Hn.
Qed.

Lemma index_Some (x : str) (l : list str) (i : Z) :
  index x l = Some i -> In x l /\ 0 <= i < len l.
Proof.
  revert i; induction l as [|y l IH]; [discriminate|]. intros i. cbn [index].
  destruct (str_eqb y x) eqn:E.
  - apply str_eqb_eq in E; subst. intros [= <-]; rewrite len_cons.
    pose proof (len_nonneg l). split; [now left|lia].
  - destruct (index x l) as [j|]; [|discriminate]. intros [= <-].
    destruct (IH j eq_refl) as [Hin Hj]; rewrite len_cons.
    split; [now right|lia].
Qed.

Lemma getitem_in_range {A : Type} (l : list A) (i : Z) :
  0 <= i < len l ->
  exists v, getitem l i = Some v /\ nth_error l (Z.to_nat i) = Some v
            /\ In v l.
Proof.
  intros H; unfold getitem.
  destruct (Z.leb_spec 0 i); [|lia].
  destruct (nth_error l (Z.to_nat i)) as [v|] eqn:E.
  - exists v; repeat split; eauto using nth_error_In.
  - apply nth_error_None in E; unfold len in H; lia.
Qed.

(** The first item of the sorted list of strings is the least one. *)
Lemma index_nil_sorted (l : list str) :
  In [] l -> index [] (sorted str_ltb (fun item => item) l) = Some 0.
Proof.
  intros H.
  destruct (sorted str_ltb (fun item : str => item) l) as [|h rest] eqn:E.
  - apply (Permutation_in _ (sorted_perm str_ltb (fun item => item) l)) in H.
    rewrite E in H; destruct H.
  - pose proof (@sorted_head _ _ str_ltb (fun item : str => item)
                  str_ltb_asym str_ltb_le_trans l h rest E [] H) as Hh.
    cbn beta in Hh. apply str_ltb_false in Hh.
    assert (h = []) by (apply str_le_antisym; [exact Hh|apply str_le_nil]).
    subst; reflexivity.
Qed.

(** ** Viewport arithmetic *)

Lemma clamp_policy_shows (rows size sel : Z) :
  1 <= rows -> 0 <= sel < size ->
  shows rows size sel (clamp sel 0 (Z.max (size - rows) 0)).
Proof. unfold shows, clamp; lia. Qed.

Lemma minimal_adjust_policy_shows (rows size sel vs : Z) :
  1 <= rows -> 0 <= sel < size ->
  shows rows size sel (minimal_adjust_policy rows size sel vs).
Proof.
  unfold shows, minimal_adjust_policy, clamp; intros.
  destruct (Z.ltb_spec sel vs), (Z.leb_spec (vs + rows) sel); lia.
Qed.


Lemma minimal_adjust_policy_fixed (rows size sel vs : Z) :
  shows rows size sel vs -> minimal_adjust_policy rows size sel vs = vs.
Proof.
  unfold shows, minimal_adjust_policy, clamp; intros.
  destruct (Z.ltb_spec sel vs), (Z.leb_spec (vs + rows) sel); lia.
Qed.


(** ** The viewport controller *)

Lemma ensure_eq (r : bool) (s : Session) :
  _ensure_selection_visible r s
  = set_view_start s (view_start (_ensure_selection_visible r s)).
Proof.
  unfold _ensure_selection_visible.
  destruct (is_empty (filtered_items s)); [reflexivity|].
  destruct (max_rows s <=? 0); [reflexivity|].
  destruct r; [reflexivity|].
  destruct (selected_index s <? view_start s); [reflexivity|].
  destruct (view_start s + max_rows s <=? selected_index s); reflexivity.
Qed.

Lemma ensure_view_start (r : bool) (s : Session) :
  filtered_items s <> [] ->
  view_start (_ensure_selection_visible r s)
  = if max_rows s <=? 0 then 0
    else if r then
           clamp (selected_index s) 0
             (Z.max (len (filtered_items s) - max_rows s) 0)
         else
           minimal_adjust_policy (max_rows s) (len (filtered_items s))
             (selected_index s) (view_start s).
Proof.
  intros H. unfold _ensure_selection_visible, minimal_adjust_policy, clamp.
  destruct (filtered_items s) eqn:E; [contradiction|]. cbn [is_empty].
  destruct (max_rows s <=? 0); [reflexivity|].
  destruct r; [reflexivity|].
  destruct (selected_index s <? view_start s); [reflexivity|].
  destruct (view_start s + max_rows s <=? selected_index s); reflexivity.
Qed.

Lemma ensure_view_start_empty (r : bool) (s : Session) :
  filtered_items s = [] -> view_start (_ensure_selection_visible r s) = 0.
Proof.
  intros H. unfold _ensure_selection_visible. now rewrite H.
Qed.

Lemma ensure_sel_ok (r : bool) (s : Session) :
  sel_ok s -> sel_ok (_ensure_selection_visible r s).
Proof. rewrite ensure_eq. unfold sel_ok. now destruct s. Qed.

Lemma ensure_view_ok (r : bool) (s : Session) :
  sel_ok s -> view_ok (_ensure_selection_visible r s).
Proof.
  intros H. unfold view_ok.
  assert (Hf : filtered_items (_ensure_selection_visible r s)
               = filtered_items s) by (rewrite ensure_eq; reflexivity).
  assert (Hm : max_rows (_ensure_selection_visible r s) = max_rows s)
    by (rewrite ensure_eq; reflexivity).
  assert (Hi : selected_index (_ensure_selection_visible r s)
               = selected_index s) by (rewrite ensure_eq; reflexivity).
  rewrite Hf, Hm, Hi. unfold sel_ok in H.
  destruct (filtered_items s) as [|y l] eqn:E.
  - now apply ensure_view_start_empty.
  - rewrite ensure_view_start by (rewrite E; discriminate). rewrite E.
    destruct (Z.leb_spec (max_rows s) 0); [reflexivity|].
    destruct r.
    + apply clamp_policy_shows; lia.
    + apply minimal_adjust_policy_shows; lia.
Qed.

(** ** Navigation *)

Lemma key_up_eq (s : Session) :
  key_up s
  = set_view_start (set_selected_index s (selected_index (key_up s)))
      (view_start (key_up s)).
Proof.
  unfold key_up.
  destruct (negb (is_empty (filtered_items s)) && (0 <? selected_index s)).
  - rewrite ensure_eq. now destruct s.
  - now destruct s.
Qed.

Lemma key_down_eq (s : Session) :
  key_down s
  = set_view_start (set_selected_index s (selected_index (key_down s)))
      (view_start (key_down s)).
Proof.
  unfold key_down.
  destruct (negb (is_empty (filtered_items s))
            && (selected_index s <? len (filtered_items s) - 1)).
  - rewrite ensure_eq. now destruct s.
  - now destruct s.
Qed.

Lemma key_up_ok (s : Session) :
  sel_ok s -> view_ok s -> sel_ok (key_up s) /\ view_ok (key_up s).
Proof.
  intros Hs Hv. unfold key_up.
  destruct (negb (is_empty (filtered_items s)) && (0 <? selected_index s))
    eqn:E; [|now split].
  apply andb_true_iff in E as [E1 E2]. apply Z.ltb_lt in E2.
  assert (sel_ok (set_selected_index s (selected_index s - 1))).
  { unfold sel_ok in *. destruct s as [p c m w iw t f i v]; cbn in *.
    destruct f; [discriminate|lia]. }
  split; [now apply ensure_sel_ok|now apply ensure_view_ok].
Qed.

Lemma key_down_ok (s : Session) :
  sel_ok s -> view_ok s -> sel_ok (key_down s) /\ view_ok (key_down s).
Proof.
  intros Hs Hv. unfold key_down.
  destruct (negb (is_empty (filtered_items s))
            && (selected_index s <? len (filtered_items s) - 1))
    eqn:E; [|now split].
  apply andb_true_iff in E as [E1 E2]. apply Z.ltb_lt in E2.
  assert (sel_ok (set_selected_index s (selected_index s + 1))).
  { unfold sel_ok in *. destruct s as [p c m w iw t f i v]; cbn in *.
    destruct f; [discriminate|lia]. }
  split; [now apply ensure_sel_ok|now apply ensure_view_ok].
Qed.

Lemma StronglySorted_impl {A : Type} (R R' : A -> A -> Prop) (l : list A) :
  (forall a b, R a b -> R' a b) -> StronglySorted R l -> StronglySorted R' l.
Proof.
  intros HR; induction 1 as [|a l Hs IH Hall]; constructor; auto.
  eapply Forall_impl; [|exact Hall]. auto.
Qed.

Lemma count_occ_filter (f : str -> bool) (l : list str) (x : str) :
  count_occ str_eq_dec (List.filter f l) x
  = if f x then count_occ str_eq_dec l x else 0%nat.
Proof.
  induction l as [|y l IH]; cbn [List.filter count_occ].
  - now destruct (f x).
  - destruct (f y) eqn:Ey; cbn [count_occ];
      destruct (str_eq_dec y x) as [->|Hn]; rewrite IH;
      try rewrite Ey; reflexivity.
Qed.

(** ** The filter and rank engine *)

Section EngineFacts.
Variable lower : str -> str.
Variable isspace : char -> bool.

Lemma sort_items_perm (items : list str) (query : str) :
  Permutation items (_sort_items lower items query).
Proof.
  unfold _sort_items. destruct items; cbn [is_empty]; [constructor|].
  destruct (is_empty query); apply sorted_perm.
Qed.

Lemma recompute_perm (source : list str) (input : str) :
  Permutation
    (if is_empty (strip isspace input) then source
     else List.filter (matches lower (strip isspace input)) source)
    (recompute lower isspace source input).
Proof. unfold recompute. apply sort_items_perm. Qed.

Lemma recompute_sorted_plain (source : list str) (input : str) :
  strip isspace input = [] ->
  StronglySorted str_le (recompute lower isspace source input).
Proof.
  intros E. unfold recompute, _sort_items. rewrite E. cbn [is_empty].
  destruct (is_empty source); [constructor|].
  eapply StronglySorted_impl;
    [|apply sorted_ordered; [apply str_ltb_asym|apply str_ltb_le_trans]].
  unfold ordered. intros a b H. now apply str_ltb_false.
Qed.

Lemma recompute_sorted_ranked (source : list str) (input : str) :
  strip isspace input <> [] ->
  StronglySorted
    (fun a b =>
       key_le (sort_key lower (lower (strip isspace input)) a)
              (sort_key lower (lower (strip isspace input)) b))
    (recompute lower isspace source input).
Proof.
  intros E. unfold recompute, _sort_items.
  destruct (strip isspace input) as [|c t] eqn:Et; [contradiction|].
  cbn [is_empty].
  destruct (is_empty (List.filter _ source)); [constructor|].
  eapply StronglySorted_impl;
    [|apply sorted_ordered; [apply tuple_ltb_asym|apply tuple_ltb_le_trans]].
  unfold ordered. intros a b H. now apply tuple_ltb_false.
Qed.

(** The components of the rank key of a candidate kept by the filter. *)
Lemma sort_key_spec (lowered item : str) :
  str_in lowered (lower item) = true ->
  exists flag position,
    sort_key lower lowered item = (flag, position, lower item)
    /\ (flag = 0 \/ flag = 1)
    /\ (flag = 0 <-> is_prefix lowered (lower item))
    /\ first_occurrence position lowered (lower item).
Proof.
  intros H. unfold sort_key.
  exists (if startswith (lower item) lowered then 0 else 1),
    (find (lower item) lowered).
  pose proof (proj2 (find_nonneg_iff (lower item) lowered) H) as Hpos.
  destruct (Z.leb_spec 0 (find (lower item) lowered)); [|lia].
  split; [reflexivity|]. split; [|split].
  - destruct (startswith (lower item) lowered); auto.
  - rewrite <- startswith_spec.
    destruct (startswith (lower item) lowered); split;
      congruence || discriminate || auto.
  - now apply find_first_occurrence.
Qed.

Lemma recompute_In (source : list str) (input : str) (x : str) :
  In x (recompute lower isspace source input) <->
  In x source
  /\ (strip isspace input = []
      \/ matches lower (strip isspace input) x = true).
Proof.
  pose proof (recompute_perm source input) as P. split.
  - intros H. apply (Permutation_in _ (Permutation_sym P)) in H.
    destruct (strip isspace input); cbn [is_empty] in H; [tauto|].
    apply filter_In in H. tauto.
  - intros [H1 H2]. apply (Permutation_in _ P).
    destruct (strip isspace input) eqn:E; cbn [is_empty]; [assumption|].
    apply filter_In. split; [assumption|].
    destruct H2; [discriminate|assumption].
Qed.

Lemma recompute_count (source : list str) (input : str) (x : str) :
  count_occ str_eq_dec (recompute lower isspace source input) x
  = if is_empty (strip isspace input) then count_occ str_eq_dec source x
    else if matches lower (strip isspace input) x
         then count_occ str_eq_dec source x
         else 0%nat.
Proof.
  pose proof (recompute_perm source input) as P.
  rewrite (Permutation_count_occ str_eq_dec) in P. rewrite <- P.
  destruct (is_empty (strip isspace input)); [reflexivity|].
  apply count_occ_filter.
Qed.

(** *** [filter_items] *)

Lemma filter_items_eq (s : Session) :
  filter_items lower isspace s
  = set_view_start
      (set_selected_index
         (set_filtered_items s
            (recompute lower isspace (choices s) (input_text s)))
         (selected_index (filter_items lower isspace s)))
      (view_start (filter_items lower isspace s)).
Proof.
  unfold filter_items.
  destruct (is_empty (recompute lower isspace (choices s) (input_text s)));
    [now destruct s|].
  rewrite ensure_eq.
  destruct (truthy (previous_value s) && opt_in (previous_value s) _);
    [|now destruct s].
  destruct (previous_value s) as [v|]; [|now destruct s].
  destruct (index v _); now destruct s.
Qed.

Lemma filter_items_filtered (s : Session) :
  filtered_items (filter_items lower isspace s)
  = recompute lower isspace (choices s) (input_text s).
Proof. now rewrite filter_items_eq. Qed.

Lemma filter_items_consistent (s : Session) :
  consistent lower isspace (filter_items lower isspace s).
Proof. unfold consistent. now rewrite filter_items_eq. Qed.
End EngineFacts.

(** ** The session *)

Section SessionFacts.
Variable lower : str -> str.
Variable isspace : char -> bool.

Lemma previous_value_selected (s : Session) :
  sel_ok s -> filtered_items s <> [] ->
  exists v, previous_value s = Some v
            /\ getitem (filtered_items s) (selected_index s) = Some v
            /\ In v (filtered_items s).
Proof.
  unfold sel_ok, previous_value. intros Hs Hne.
  destruct (filtered_items s) as [|y l] eqn:E; [contradiction|].
  destruct (@getitem_in_range _ (y :: l) (selected_index s) Hs)
    as [v [Hg [_ Hin]]].
  exists v. cbn [is_empty negb andb].
  destruct (Z.leb_spec 0 (selected_index s)); [|lia].
  destruct (Z.ltb_spec (selected_index s) (len (y :: l))); [|lia].
  auto.
Qed.

(** The two ways out of [filter_items]. *)
Lemma filter_items_cases (s : Session) :
  let out := recompute lower isspace (choices s) (input_text s) in
  let pv := previous_value s in
  (out = []
   /\ filter_items lower isspace s
      = set_view_start (set_selected_index (set_filtered_items s out) 0) 0)
  \/ (out <> []
      /\ exists i,
          filter_items lower isspace s
          = _ensure_selection_visible (negb (opt_in pv out))
              (set_selected_index (set_filtered_items s out) i)
          /\ 0 <= i < len out
          /\ ((exists v, pv = Some v /\ v <> [] /\ In v out
                         /\ index v out = Some i)
              \/ ((pv = None \/ pv = Some [] \/ opt_in pv out = false)
                  /\ i = 0))).
Proof.
  intros out pv. unfold filter_items. fold out. fold pv.
  destruct out as [|y l] eqn:E; [left; split; reflexivity|right].
  split; [discriminate|]. cbn [is_empty].
  assert (H0 : 0 <= 0 < len (y :: l))
    by (rewrite len_cons; pose proof (len_nonneg l); lia).
  destruct pv as [[|c v]|] eqn:Ep; cbn [truthy andb].
  - exists 0. split; [reflexivity|]. split; [lia|]. right; auto.
  - match goal with
    | |- context [negb (opt_in ?a ?b)] => destruct (opt_in a b) eqn:Ein
    end.
    + cbn [opt_in] in Ein. apply list_in_In in Ein.
      destruct (@index_In _ _ Ein) as [i [Hi [Hr _]]]. rewrite Hi.
      exists i. split; [reflexivity|]. split; [lia|].
      left. exists (c :: v). repeat split; auto. discriminate.
    + exists 0. split; [reflexivity|]. split; [lia|]. right; auto.
  - exists 0. split; [reflexivity|]. split; [lia|]. right; auto.
Qed.

Lemma filter_items_sel_ok (s : Session) :
  sel_ok (filter_items lower isspace s).
Proof.
  destruct (filter_items_cases s) as [[E ->]|[Hne [i [-> [Hi _]]]]].
  - unfold sel_ok. cbn. now rewrite E.
  - apply ensure_sel_ok. unfold sel_ok. cbn.
    destruct (recompute lower isspace (choices s) (input_text s));
      [contradiction|exact Hi].
Qed.

Lemma filter_items_view_ok (s : Session) :
  view_ok (filter_items lower isspace s).
Proof.
  destruct (filter_items_cases s) as [[E ->]|[Hne [i [-> [Hi _]]]]].
  - unfold view_ok. cbn. now rewrite E.
  - apply ensure_view_ok. unfold sel_ok. cbn.
    destruct (recompute lower isspace (choices s) (input_text s));
      [contradiction|exact Hi].
Qed.

Lemma filter_items_inv (s : Session) :
  inv lower isspace (filter_items lower isspace s).
Proof.
  repeat split;
    [apply filter_items_consistent|apply filter_items_sel_ok
    |apply filter_items_view_ok].
Qed.

Lemma ensure_inv (r : bool) (s : Session) :
  inv lower isspace s -> inv lower isspace (_ensure_selection_visible r s).
Proof.
  intros [Hc [Hs Hv]]. repeat split.
  - unfold consistent in *. rewrite ensure_eq. exact Hc.
  - now apply ensure_sel_ok.
  - now apply ensure_view_ok.
Qed.

Lemma key_up_inv (s : Session) :
  inv lower isspace s -> inv lower isspace (key_up s).
Proof.
  intros [Hc [Hs Hv]]. destruct (key_up_ok s Hs Hv). repeat split; auto.
  unfold consistent in *. rewrite key_up_eq. exact Hc.
Qed.

Lemma key_down_inv (s : Session) :
  inv lower isspace s -> inv lower isspace (key_down s).
Proof.
  intros [Hc [Hs Hv]]. destruct (key_down_ok s Hs Hv). repeat split; auto.
  unfold consistent in *. rewrite key_down_eq. exact Hc.
Qed.

Lemma key_tab_inv (s s' : Session) :
  inv lower isspace s -> key_tab lower isspace s = Ok s' ->
  inv lower isspace s'.
Proof.
  intros Hi. unfold key_tab.
  destruct (is_empty (filtered_items s)); [now intros [= <-]|].
  destruct (_accept_selection s) as [s1|e]; [|discriminate].
  cbn [bind]. intros [= <-]. apply ensure_inv, filter_items_inv.
Qed.

Lemma handle_inv (k : Key) (s s' : Session) :
  inv lower isspace s -> handle lower isspace k s = Ok (Continue s') ->
  inv lower isspace s'.
Proof.
  intros Hi. destruct k; cbn [handle].
  - intros [= <-]. now apply key_up_inv.
  - intros [= <-]. now apply key_down_inv.
  - destruct (key_tab lower isspace s) as [s1|e] eqn:E; [|discriminate].
    cbn [bind]. intros [= <-]. eapply key_tab_inv; eauto.
  - destruct (key_enter s); discriminate.
  - intros [= <-]. apply filter_items_inv.
  - intros [= <-]. unfold key_backspace.
    destruct (is_empty (input_text s)); [exact Hi|apply filter_items_inv].
  - intros [= <-]. apply filter_items_inv.
  - discriminate.
  - destruct (existsb (N.eqb c) bound_chars); intros [= <-];
      [apply filter_items_inv|exact Hi].
Qed.

Lemma reachable_inv (s : Session) :
  reachable lower isspace s -> inv lower isspace s.
Proof.
  induction 1 as [prompt cs rows|s k s' _ IH Hstep].
  - apply filter_items_inv.
  - eapply handle_inv; eauto.
Qed.
End SessionFacts.

(** * Properties *)

(** ** Filter and rank *)

(** C1, as amended.  The query that filters is the whitespace-trimmed input
    text [t].  When [t] is non-empty, every item of the filtered list is a
    candidate whose lowercase form contains the lowercase [t], and every
    candidate whose lowercase form contains it occurs in the filtered list as
    many times as among the candidates: exactly once when the candidates
    have no duplicates. *)
Theorem filter_items_matches
  (lower : str -> str) (isspace : char -> bool) (s : Session) :
  strip isspace (input_text s) <> [] ->
  let t := strip isspace (input_text s) in
  let out := filtered_items (filter_items lower isspace s) in
  (forall x, In x out -> In x (choices s) /\ occurs_in (lower t) (lower x))
  /\ (forall x, occurs_in (lower t) (lower x) ->
                count_occ str_eq_dec out x
                = count_occ str_eq_dec (choices s) x)
  /\ (NoDup (choices s) ->
      forall x, In x (choices s) -> occurs_in (lower t) (lower x) ->
                count_occ str_eq_dec out x = 1%nat).
Proof.
  intros Hne t out. subst out. rewrite filter_items_filtered.
  assert (Hcount : forall x, occurs_in (lower t) (lower x) ->
            count_occ str_eq_dec
              (recompute lower isspace (choices s) (input_text s)) x
            = count_occ str_eq_dec (choices s) x).
  { intros x Hx. rewrite recompute_count. fold t.
    destruct t eqn:Et; [contradiction|]. cbn [is_empty].
    unfold matches. apply str_in_spec in Hx. now rewrite Hx. }
  split; [|split].
  - intros x Hx. apply recompute_In in Hx as [Hin [He|Hm]];
      [contradiction|].
    split; [exact Hin|]. now apply str_in_spec.
  - exact Hcount.
  - intros Hnd x Hin Hx. rewrite (Hcount x Hx).
    now apply NoDup_count_occ'.
Qed.

Lemma filter_items_matches_witness :
  let s := mkSession (lit "> ") [lit "Heart"; lit "star"; lit "Earth"] 6 80 76
             (lit " ar ") [] 0 0 in
  strip ascii_isspace (input_text s) <> []
  /\ filtered_items (filter_items ascii_lower ascii_isspace s)
     = [lit "Earth"; lit "Heart"; lit "star"]
  /\ forall x,
       In x (filtered_items (filter_items ascii_lower ascii_isspace s)) ->
       In x (choices s)
       /\ occurs_in (ascii_lower (strip ascii_isspace (input_text s)))
            (ascii_lower x).
Proof.
  intros s. split; [vm_compute; discriminate|]. split; [reflexivity|].
  apply (filter_items_matches ascii_lower ascii_isspace s).
  vm_compute; discriminate.
Defined.

(** C1 as stated fails on a query with a trailing space: the input text
    ["a "] keeps the candidate ["ab"], which does not contain ["a "]. *)
Lemma filter_items_untrimmed_query :
  let s := mkSession (lit "> ") [lit "ab"] 6 80 76 (lit "a ") [] 0 0 in
  let q := input_text s in
  let out := filtered_items (filter_items ascii_lower ascii_isspace s) in
  q <> []
  /\ ~ ((forall x, In x out -> occurs_in (ascii_lower q) (ascii_lower x))
        /\ (forall x, In x (choices s) ->
                      occurs_in (ascii_lower q) (ascii_lower x) ->
                      count_occ str_eq_dec out x = 1%nat)).
Proof.
  intros s q out. split; [discriminate|]. intros [H _].
  assert (Hin : In (lit "ab") out) by (left; reflexivity).
  apply H, str_in_spec in Hin. vm_compute in Hin. discriminate.
Qed.

(** C2.  With [t] the whitespace-trimmed input text: when [t] is empty the
    filtered list is the candidate list rearranged in ascending order of the
    strings (code point by code point); when [t] is non-empty it is the list
    of the matching candidates rearranged in ascending order of the key
    (flag, position, lowercase candidate), where the flag is 0 when the
    lowercase candidate starts with the lowercase [t] and 1 otherwise, and
    the position is the offset of the first occurrence of the lowercase [t]
    in the lowercase candidate. *)
Theorem filter_items_order
  (lower : str -> str) (isspace : char -> bool) (s : Session) :
  let t := strip isspace (input_text s) in
  let out := filtered_items (filter_items lower isspace s) in
  match t with
  | [] => Permutation (choices s) out /\ StronglySorted str_le out
  | _ :: _ =>
      Permutation (List.filter (matches lower t) (choices s)) out
      /\ StronglySorted
           (fun a b =>
              key_le (sort_key lower (lower t) a) (sort_key lower (lower t) b))
           out
      /\ Forall
           (fun x =>
              exists flag position,
                sort_key lower (lower t) x = (flag, position, lower x)
                /\ (flag = 0 \/ flag = 1)
                /\ (flag = 0 <-> is_prefix (lower t) (lower x))
                /\ first_occurrence position (lower t) (lower x))
           out
  end.
Proof.
  intros t out. subst out. rewrite filter_items_filtered.
  pose proof (recompute_perm lower isspace (choices s) (input_text s)) as P.
  pose proof (@recompute_sorted_plain lower isspace (choices s)
                (input_text s)) as S1.
  pose proof (@recompute_sorted_ranked lower isspace (choices s)
                (input_text s)) as S2.
  pose proof (recompute_In lower isspace (choices s) (input_text s)) as I.
  fold t in P, S1, S2, I.
  destruct t as [|c t'] eqn:Et; cbn [is_empty] in P.
  - split; [exact P|now apply S1].
  - split; [exact P|]. split; [apply S2; discriminate|].
    apply Forall_forall. intros x Hx.
    apply I in Hx as [_ [Hx|Hx]]; [discriminate|].
    now apply sort_key_spec.
Qed.

(** C3, as amended.  For the candidates ["Abc"], ["xAbcy"], ["abcz"] and the
    input text ["abc"] the filtered list is ["Abc"], ["abcz"], ["xAbcy"]:
    both ["Abc"] and ["abcz"] start with the query at offset 0, and the
    lowercase ["abc"] sorts before ["abcz"]. *)
Theorem rank_order_example (prompt : str) (rows : Z) :
  filtered_items
    (filter_items ascii_lower ascii_isspace
       (mkSession prompt [lit "Abc"; lit "xAbcy"; lit "abcz"] rows 80 76
          (lit "abc") [] 0 0))
  = [lit "Abc"; lit "abcz"; lit "xAbcy"].
Proof. rewrite filter_items_filtered. reflexivity. Qed.

(** C3 as stated fails: the filtered list is not ["abcz"], ["Abc"],
    ["xAbcy"]. *)
Lemma rank_order_example_not_as_stated :
  filtered_items
    (filter_items ascii_lower ascii_isspace
       (mkSession (lit "> ") [lit "Abc"; lit "xAbcy"; lit "abcz"] 6 80 76
          (lit "abc") [] 0 0))
  <> [lit "abcz"; lit "Abc"; lit "xAbcy"].
Proof. vm_compute. discriminate. Qed.

(** ** Selection and viewport *)


Section SelectionFacts.
Variable lower : str -> str.
Variable isspace : char -> bool.


(** What a re-filter does to the selection and the viewport. *)
Lemma filter_items_selection (s : Session) (v : str) :
  sel_ok s -> filtered_items s <> [] ->
  getitem (filtered_items s) (selected_index s) = Some v ->
  let s' := filter_items lower isspace s in
  (v = [] -> In [] (filtered_items s') ->
   index [] (filtered_items s') = Some 0) ->
  (In v (filtered_items s') ->
   index v (filtered_items s') = Some (selected_index s')
   /\ view_start s'
      = if max_rows s <=? 0 then 0
        else minimal_adjust_policy (max_rows s) (len (filtered_items s'))
               (selected_index s') (view_start s))
  /\ (~ In v (filtered_items s') ->
      selected_index s' = 0 /\ view_start s' = 0).
Proof.
  intros Hs Hne Hv s'.
  destruct (previous_value_selected s Hs Hne) as [v' [Hpv [Hv' _]]].
  assert (v' = v) by congruence. subst v'.
  subst s'. rewrite filter_items_filtered.
  destruct (filter_items_cases lower isspace s)
    as [[E ->]|[Hout [i [-> [Hi Hcase]]]]].
  - intros _. rewrite E. cbn. split; [intros []|auto].
  - rewrite Hpv in *. cbn [opt_in] in *.
    set (out := recompute lower isspace (choices s) (input_text s)) in *.
    set (s2 := set_selected_index (set_filtered_items s out) i).
    assert (Hf2 : filtered_items s2 <> []) by exact Hout.
    intros Hnil. split.
    + intros Hin. pose proof (proj2 (list_in_In v out) Hin) as Hl.
      rewrite Hl. cbn [negb].
      rewrite (ensure_view_start false s2 Hf2).
      replace (selected_index (_ensure_selection_visible false s2))
        with i by (rewrite ensure_eq; reflexivity).
      split; [|reflexivity].
      destruct Hcase as [[v0 [Hv0 [_ [_ Hidx]]]]|[[Hc|[Hc|Hc]] ->]].
      * injection Hv0 as <-. exact Hidx.
      * discriminate.
      * injection Hc as ->. now apply Hnil.
      * congruence.
    + intros Hnin.
      assert (Hl : list_in v out = false).
      { destruct (list_in v out) eqn:El; [|reflexivity].
        apply list_in_In in El. contradiction. }
      rewrite Hl. cbn [negb].
      rewrite (ensure_view_start true s2 Hf2).
      replace (selected_index (_ensure_selection_visible true s2))
        with i by (rewrite ensure_eq; reflexivity).
      destruct Hcase as [[v0 [Hv0 [_ [Hin0 _]]]]|[_ ->]].
      * injection Hv0 as <-. contradiction.
      * split; [reflexivity|].
        change (selected_index s2) with 0. change (max_rows s2) with (max_rows s).
        destruct (max_rows s <=? 0); [reflexivity|].
        unfold clamp. pose proof (len_nonneg (filtered_items s2)). lia.
Qed.
End SelectionFacts.

Lemma getitem_nonneg {A : Type} (l : list A) (i : Z) :
  0 <= i -> getitem l i = nth_error l (Z.to_nat i).
Proof. intros H. unfold getitem. destruct (Z.leb_spec 0 i); [reflexivity|lia]. Qed.

(** [index x l] is the position of the first [x] of [l]. *)
Lemma index_getitem (x : str) (l : list str) (i : Z) :
  index x l = Some i ->
  getitem l i = Some x
  /\ forall j, 0 <= j < i -> getitem l j <> Some x.
Proof.
  revert i. induction l as [|y l IH]; [discriminate|]. intros i.
  cbn [index]. destruct (str_eqb y x) eqn:E.
  - apply str_eqb_eq in E. subst y. intros [= <-].
    split; [reflexivity|]. intros j Hj. lia.
  - apply str_eqb_neq in E.
    destruct (index x l) as [i'|] eqn:Ei; [|discriminate]. intros [= <-].
    destruct (index_Some x l Ei) as [_ Hi'].
    destruct (IH i' eq_refl) as [Hg Hfirst]. split.
    + rewrite getitem_nonneg by lia.
      replace (Z.to_nat (i' + 1)) with (S (Z.to_nat i')) by lia.
      cbn [nth_error]. now rewrite <- getitem_nonneg by lia.
    + intros j Hj. rewrite getitem_nonneg by lia.
      destruct (Z.eq_dec j 0) as [->|Hj0].
      * cbn. congruence.
      * replace (Z.to_nat j) with (S (Z.to_nat (j - 1))) by lia.
        cbn [nth_error]. rewrite <- getitem_nonneg by lia.
        apply Hfirst. lia.
Qed.





(** C5, as amended.  In a session with at least one visible row and a
    non-empty filtered list, after each event of any sequence of navigate-up
    and navigate-down events, [view_start <= selected_index < view_start +
    max_rows] and [0 <= view_start <= max(len(filtered) - max_rows, 0)]. *)
Theorem viewport_invariant
  (lower : str -> str) (isspace : char -> bool) (s : Session)
  (ks : list Nav) :
  reachable lower isspace s ->
  filtered_items s <> [] ->
  1 <= max_rows s ->
  Forall
    (fun s' =>
       (view_start s' <= selected_index s' < view_start s' + max_rows s')
       /\ (0 <= view_start s'
           <= Z.max (len (filtered_items s') - max_rows s') 0))
    (nav_trace ks s).
Proof.
  intros Hreach Hne Hrows.
  destruct (reachable_inv Hreach) as [_ [Hs Hv]]. clear Hreach.
  revert s Hne Hrows Hs Hv.
  induction ks as [|k ks IH]; intros s Hne Hrows Hs Hv; cbn [nav_trace];
    constructor.
  - assert (H : sel_ok (match k with NavUp => key_up s | NavDown => key_down s end)
                /\ view_ok (match k with NavUp => key_up s | NavDown => key_down s end))
      by (destruct k; [now apply key_up_ok|now apply key_down_ok]).
    destruct H as [_ H]. unfold view_ok, shows in H.
    assert (Hf : filtered_items (match k with NavUp => key_up s | NavDown => key_down s end)
                 = filtered_items s)
      by (destruct k; [rewrite key_up_eq|rewrite key_down_eq]; reflexivity).
    assert (Hm : max_rows (match k with NavUp => key_up s | NavDown => key_down s end)
                 = max_rows s)
      by (destruct k; [rewrite key_up_eq|rewrite key_down_eq]; reflexivity).
    rewrite Hf, Hm in *.
    destruct (filtered_items s); [contradiction|].
    destruct (Z.leb_spec (max_rows s) 0); [lia|]. tauto.
  - destruct k.
    + destruct (key_up_ok s Hs Hv). apply IH; auto;
        rewrite key_up_eq; assumption.
    + destruct (key_down_ok s Hs Hv). apply IH; auto;
        rewrite key_down_eq; assumption.
Qed.

Lemma viewport_invariant_witness :
  let s :=
    init ascii_lower ascii_isspace (lit "> ")
      [lit "a"; lit "b"; lit "c"; lit "d"] 2 in
  reachable ascii_lower ascii_isspace s
  /\ filtered_items s <> []
  /\ 1 <= max_rows s
  /\ List.map (fun s' => (selected_index s', view_start s'))
       (nav_trace [NavDown; NavDown; NavDown; NavDown; NavUp; NavUp; NavUp] s)
     = [(1, 0); (2, 1); (3, 2); (3, 2); (2, 2); (1, 1); (0, 0)]
  /\ Forall
       (fun s' =>
          (view_start s' <= selected_index s' < view_start s' + max_rows s')
          /\ (0 <= view_start s'
              <= Z.max (len (filtered_items s') - max_rows s') 0))
       (nav_trace [NavDown; NavDown; NavDown; NavDown; NavUp; NavUp; NavUp] s).
Proof.
  intros s.
  assert (Hr : reachable ascii_lower ascii_isspace s) by apply reach_init.
  assert (Hne : filtered_items s <> []) by (vm_compute; discriminate).
  assert (Hrows : 1 <= max_rows s) by (vm_compute; discriminate).
  split; [exact Hr|]. split; [exact Hne|]. split; [exact Hrows|].
  split; [reflexivity|].
  exact (viewport_invariant
           [NavDown; NavDown; NavDown; NavDown; NavUp; NavUp; NavUp]
           Hr Hne Hrows).
Defined.

(** C5 as stated fails when [max_rows] is 0, the case in which
    [_ensure_selection_visible] pins [view_start] to 0: after one
    navigate-down the selected index is 1 and no row is in the window. *)
Lemma viewport_invariant_zero_rows :
  let s := init ascii_lower ascii_isspace (lit "> ") [lit "a"; lit "b"] 0 in
  reachable ascii_lower ascii_isspace s
  /\ filtered_items s <> []
  /\ ~ Forall
         (fun s' =>
            (view_start s' <= selected_index s' < view_start s' + max_rows s')
            /\ (0 <= view_start s'
                <= Z.max (len (filtered_items s') - max_rows s') 0))
         (nav_trace [NavDown] s).
Proof.
  intros s. split; [apply reach_init|]. split; [vm_compute; discriminate|].
  intros H. inversion H as [|? ? [[_ Hlt] _] _]; subst.
  vm_compute in Hlt. discriminate.
Qed.

(** C10.  Navigate-up and navigate-down leave the input text, the candidate
    list and the filtered list as they are, in every state, also in one
    whose filtered list is not the list that a recomputation would give:
    they write [selected_index] and [view_start] only. *)
Theorem navigation_frame (s : Session) (k : Nav) :
  let s' := match k with NavUp => key_up s | NavDown => key_down s end in
  s' = set_view_start (set_selected_index s (selected_index s'))
         (view_start s')
  /\ input_text s' = input_text s
  /\ choices s' = choices s
  /\ filtered_items s' = filtered_items s
  /\ max_rows s' = max_rows s.
Proof.
  destruct k; cbn zeta.
  - split; [apply key_up_eq|]. rewrite key_up_eq. repeat split.
  - split; [apply key_down_eq|]. rewrite key_down_eq. repeat split.
Qed.

(** ** Rendering *)

Lemma range_length (n : Z) : List.length (range n) = Z.to_nat n.
Proof. unfold range. now rewrite length_map, length_seq. Qed.

Lemma range_In (n x : Z) : In x (range n) -> 0 <= x < n.
Proof.
  unfold range. rewrite in_map_iff. intros [i [<- Hi]].
  apply in_seq in Hi. lia.
Qed.

Lemma for_extend_rows (s : Session) (xs : list Z)
  (body : Z -> result FormattedText) :
  (forall x, In x xs ->
             exists text style, body x = Ok (_panel_row s text style)) ->
  exists rows,
    List.length rows = List.length xs
    /\ for_extend xs body
       = Ok (List.concat
               (List.map (fun r => _panel_row s (fst r) (snd r)) rows)).
Proof.
  induction xs as [|x xs IH]; intros H.
  - exists []. split; reflexivity.
  - destruct (H x (or_introl eq_refl)) as [text [style Hx]].
    destruct IH as [rows [Hl Hr]]; [intros y Hy; apply H; now right|].
    exists ((text, style) :: rows). split; [simpl; now rewrite Hl|].
    cbn [for_extend]. rewrite Hx, Hr. reflexivity.
Qed.

Lemma render_slot_row (s : Session) (idx : Z) :
  0 <= view_start s -> 0 <= idx ->
  exists text style, render_slot s idx = Ok (_panel_row s text style).
Proof.
  intros Hv Hi. unfold render_slot.
  destruct (Z.ltb_spec (view_start s + idx) (len (filtered_items s))).
  - destruct (@getitem_in_range _ (filtered_items s) (view_start s + idx))
      as [item [-> _]]; [lia|].
    cbn [of_option bind]. eauto.
  - eauto.
Qed.

Lemma has_content_rows_length (s : Session) (out : FormattedText) (n : nat) :
  has_content_rows s out n -> List.length out = (2 + 3 * n)%nat.
Proof.
  intros [title [rows [<- ->]]].
  rewrite !length_app. cbn [_panel_header _panel_footer List.length].
  assert (List.length
            (List.concat
               (List.map (fun r => _panel_row s (fst r) (snd r)) rows))
          = (3 * List.length rows)%nat).
  { induction rows as [|r rows IH]; [reflexivity|].
    cbn [List.map List.concat]. rewrite length_app, IH.
    cbn [_panel_row List.length]. lia. }
  lia.
Qed.

(** C6, as amended.  In a session with at least one visible row,
    [render_panel] returns a header, exactly [max_rows] panel rows and a
    footer, whether the filtered list is empty, shorter than [max_rows] or
    longer. *)
Theorem render_panel_rows
  (lower : str -> str) (isspace : char -> bool) (s : Session) :
  reachable lower isspace s ->
  1 <= max_rows s ->
  exists out,
    render_panel s = Ok out
    /\ has_content_rows s out (Z.to_nat (max_rows s)).
Proof.
  intros Hreach Hrows.
  destruct (reachable_inv Hreach) as [_ [_ Hv]]. unfold view_ok in Hv.
  unfold render_panel, has_content_rows.
  destruct (filtered_items s) as [|y l] eqn:E; cbn [is_empty].
  - destruct (@for_extend_rows s (range (max_rows s - 1))
                (fun _ => Ok (_panel_row s [] "class:panel-placeholder"%string)))
      as [rows [Hl ->]]; [eauto|].
    cbn [bind]. eexists. split; [reflexivity|].
    exists (lit "No results"),
      ((_truncate (lit "Tidak ada hasil") (panel_inner_width s),
        "class:no-results"%string) :: rows).
    split.
    + cbn [List.length]. rewrite Hl, range_length. lia.
    + cbn [List.map List.concat fst snd]. now rewrite <- !app_assoc.
  - assert (H0 : 0 <= view_start s).
    { destruct (Z.leb_spec (max_rows s) 0); [lia|]. unfold shows in Hv. lia. }
    destruct (@for_extend_rows s (range (max_rows s)) (render_slot s))
      as [rows [Hl ->]].
    { intros x Hx. apply range_In in Hx. apply render_slot_row; lia. }
    cbn [bind]. eexists. split; [reflexivity|].
    exists (lit "NerdIcons"), rows. split.
    + now rewrite Hl, range_length.
    + now rewrite <- !app_assoc.
Qed.

Lemma render_panel_rows_witness :
  let s :=
    init ascii_lower ascii_isspace (lit "> ") [lit "a"; lit "b"; lit "c"] 2 in
  reachable ascii_lower ascii_isspace s
  /\ 1 <= max_rows s
  /\ exists out,
      render_panel s = Ok out
      /\ has_content_rows s out (Z.to_nat (max_rows s)).
Proof.
  intros s.
  assert (Hr : reachable ascii_lower ascii_isspace s) by apply reach_init.
  assert (Hrows : 1 <= max_rows s) by (vm_compute; discriminate).
  split; [exact Hr|]. split; [exact Hrows|].
  exact (render_panel_rows Hr Hrows).
Defined.

(** C6 as stated fails when [max_rows] is 0 and the filtered list is empty:
    the panel has one row, the "no results" message. *)
Lemma render_panel_zero_rows :
  let s := init ascii_lower ascii_isspace (lit "> ") [] 0 in
  reachable ascii_lower ascii_isspace s
  /\ exists out,
      render_panel s = Ok out
      /\ has_content_rows s out 1
      /\ ~ has_content_rows s out (Z.to_nat (max_rows s)).
Proof.
  intros s. split; [apply reach_init|].
  eexists. split; [reflexivity|]. split.
  - exists (lit "No results"),
      [(_truncate (lit "Tidak ada hasil") (panel_inner_width s),
        "class:no-results"%string)].
    split; reflexivity.
  - intros H. apply has_content_rows_length in H.
    vm_compute in H. discriminate.
Qed.

(** ** Accept and submit *)

Lemma key_le_refl (a : key_t) : key_le a a.
Proof. destruct (key_le_total a a); assumption. Qed.

Lemma key_le_antisym (a b : key_t) : key_le a b -> key_le b a -> a = b.
Proof.
  destruct a as [[a1 a2] a3], b as [[b1 b2] b3]. unfold key_le.
  intros [H|[-> [H|[-> H]]]] [H'|[E [H'|[E' H']]]]; try lia.
  f_equal. now apply str_le_antisym.
Qed.

Lemma filter_filter_and {A : Type} (f g : A -> bool) (l : list A) :
  List.filter f (List.filter g l) = List.filter (fun x => g x && f x) l.
Proof.
  induction l as [|x l IH]; [reflexivity|]. cbn [List.filter].
  destruct (g x); cbn [List.filter andb]; [destruct (f x)|]; now rewrite IH.
Qed.

Section AcceptFacts.
Variable lower : str -> str.
Variable isspace : char -> bool.

(** The first item of a ranked list has the least key. *)
Lemma recompute_head (source : list str) (input top : str)
  (rest : list str) :
  strip isspace input <> [] ->
  recompute lower isspace source input = top :: rest ->
  forall x, In x (recompute lower isspace source input) ->
    key_le (sort_key lower (lower (strip isspace input)) top)
           (sort_key lower (lower (strip isspace input)) x).
Proof.
  intros Hne E x Hx.
  pose proof (@recompute_sorted_ranked lower isspace source input Hne) as S.
  rewrite E in S, Hx. inversion S as [|? ? _ Hall]; subst.
  destruct Hx as [<-|Hx]; [apply key_le_refl|].
  rewrite Forall_forall in Hall. now apply Hall.
Qed.

(** The key of a candidate for the query that is its own text. *)
Lemma sort_key_self (v : str) :
  sort_key lower (lower v) v = (0, 0, lower v).
Proof.
  unfold sort_key. rewrite startswith_refl.
  rewrite (find_startswith _ _ (startswith_refl (lower v))). reflexivity.
Qed.

Lemma sort_key_same_lower (v y : str) :
  lower y = lower v -> sort_key lower (lower v) y = (0, 0, lower v).
Proof.
  intros E. unfold sort_key. rewrite E, startswith_refl.
  rewrite (find_startswith _ _ (startswith_refl (lower v))). reflexivity.
Qed.

Lemma recompute_self_top (source : list str) (v top : str)
  (rest : list str) :
  v <> [] -> strip isspace v = v -> In v source ->
  recompute lower isspace source v = top :: rest ->
  In top source /\ lower top = lower v.
Proof.
  intros Hv Hstrip Hin E.
  assert (Hne : strip isspace v <> []) by (now rewrite Hstrip).
  assert (Hvin : In v (recompute lower isspace source v)).
  { apply recompute_In. split; [exact Hin|right].
    rewrite Hstrip. apply str_in_refl. }
  assert (Htop : In top (recompute lower isspace source v))
    by (rewrite E; now left).
  pose proof (recompute_head _ _ Hne E v Hvin) as Hle.
  apply recompute_In in Htop as [Hts [Hq|Hm]]; [contradiction|].
  split; [exact Hts|].
  rewrite Hstrip in Hle, Hm. unfold matches in Hm.
  destruct (sort_key_spec lower (lower v) top Hm)
    as [flag [position [Hk [Hflag [Hpre [[pre [post [_ Hpos]]] _]]]]]].
  rewrite Hk, sort_key_self in Hle. unfold key_le in Hle.
  pose proof (len_nonneg pre).
  assert (Hf : flag = 0) by lia.
  apply str_le_antisym.
  - destruct Hle as [?|[_ [?|[_ Hle]]]]; [lia|lia|exact Hle].
  - apply is_prefix_le. now apply Hpre.
Qed.

(** The candidates of the rank of [v], for the query [v], are those with the
    lowercase form of [v]. *)
Lemma same_rank_self (v y : str) :
  matches lower v y
  && same_rank tuple_ltb (0, 0, lower v) (sort_key lower (lower v) y)
  = str_eqb (lower y) (lower v).
Proof.
  destruct (str_eqb (lower y) (lower v)) eqn:E.
  - apply str_eqb_eq in E. unfold matches. rewrite E, str_in_refl.
    rewrite (@sort_key_same_lower v y E). unfold same_rank.
    assert (H : tuple_ltb (0, 0, lower v) (0, 0, lower v) = false)
      by (apply tuple_ltb_false, key_le_refl).
    now rewrite H.
  - apply str_eqb_neq in E.
    destruct (same_rank tuple_ltb (0, 0, lower v)
                (sort_key lower (lower v) y)) eqn:R;
      [|now rewrite andb_false_r].
    exfalso. apply E. unfold same_rank in R.
    apply andb_true_iff in R as [R1 R2]. apply negb_true_iff in R1, R2.
    apply tuple_ltb_false in R1, R2.
    pose proof (@key_le_antisym _ _ R1 R2) as K. unfold sort_key in K.
    injection K as _ _ K. exact K.
Qed.

(** The first item of the list ranked for the query [v] is the first
    candidate with the lowercase form of [v]. *)
Lemma recompute_self_first (source : list str) (v top : str)
  (rest : list str) :
  v <> [] -> strip isspace v = v -> In v source ->
  recompute lower isspace source v = top :: rest ->
  exists others,
    List.filter (fun y => str_eqb (lower y) (lower v)) source = top :: others.
Proof.
  intros Hv Hstrip Hin E.
  destruct (recompute_self_top source Hv Hstrip Hin E) as [_ Hlow].
  set (P := fun a => same_rank tuple_ltb (0, 0, lower v)
                       (sort_key lower (lower v) a)).
  assert (Hst : List.filter P (recompute lower isspace source v)
                = List.filter P (List.filter (matches lower v) source)).
  { unfold recompute, _sort_items. rewrite Hstrip.
    destruct v as [|c t]; [contradiction|]. cbn [is_empty].
    fold (matches lower (c :: t)).
    destruct (List.filter (matches lower (c :: t)) source) as [|y l];
      [reflexivity|]. cbn [is_empty].
    apply sorted_stable. apply tuple_ltb_le_trans. }
  rewrite E, filter_filter_and in Hst. cbn [List.filter] in Hst.
  assert (Ptop : P top = true).
  { unfold P. rewrite (@sort_key_same_lower v top Hlow). unfold same_rank.
    assert (H : tuple_ltb (0, 0, lower v) (0, 0, lower v) = false)
      by (apply tuple_ltb_false, key_le_refl).
    now rewrite H. }
  rewrite Ptop in Hst. exists (List.filter P rest).
  rewrite Hst. apply filter_ext. intros y. symmetry. apply same_rank_self.
Qed.

(** The empty candidate is the first item of an unfiltered list. *)
Lemma index_nil_recompute_plain (source : list str) (input : str) :
  strip isspace input = [] ->
  In [] (recompute lower isspace source input) ->
  index [] (recompute lower isspace source input) = Some 0.
Proof.
  intros Et Hin.
  pose proof (proj1 (recompute_In lower isspace source input []) Hin)
    as [Hsrc _].
  unfold recompute, _sort_items in *. rewrite Et in *. cbn [is_empty] in *.
  destruct source as [|y l]; [destruct Hsrc|]. cbn [is_empty] in *.
  now apply index_nil_sorted.
Qed.
End AcceptFacts.

(** C7, as amended.  When the filtered list is not empty, tab sets the input
    text to the candidate [v] at the selected index and re-filters with it.
    When [v] has no leading or trailing whitespace, the new filtered list
    contains [v], the row at the new selected index is [v] (the first [v] of
    the list), and the first item of the list has the lowercase form of
    [v]: it is the first candidate, in the order of the candidate list,
    whose lowercase form is that of [v], hence [v] itself when [v] is the
    empty string or when no other candidate has its lowercase form. *)
Theorem accept_round_trip
  (lower : str -> str) (isspace : char -> bool) (s : Session) :
  reachable lower isspace s ->
  filtered_items s <> [] ->
  exists v s',
    getitem (filtered_items s) (selected_index s) = Some v
    /\ key_tab lower isspace s = Ok s'
    /\ input_text s' = v
    /\ filtered_items s' = recompute lower isspace (choices s) v
    /\ (strip isspace v = v ->
        In v (filtered_items s')
        /\ getitem (filtered_items s') (selected_index s') = Some v
        /\ (forall j, 0 <= j < selected_index s' ->
                      getitem (filtered_items s') j <> Some v)
        /\ index v (filtered_items s') = Some (selected_index s')
        /\ exists top rest,
            filtered_items s' = top :: rest
            /\ lower top = lower v
            /\ (v = [] -> top = v)
            /\ (v <> [] ->
                exists others,
                  List.filter (fun y => str_eqb (lower y) (lower v))
                    (choices s)
                  = top :: others)
            /\ ((forall y, In y (choices s) -> lower y = lower v -> y = v) ->
                top = v)).
Proof.
  intros Hreach Hne.
  destruct (reachable_inv Hreach) as [Hc [Hs _]].
  destruct (previous_value_selected s Hs Hne) as [v [_ [Hg Hin]]].
  set (s1 := set_input_text s v).
  exists v, (_ensure_selection_visible false (filter_items lower isspace s1)).
  assert (Hf : filtered_items
                 (_ensure_selection_visible false
                    (filter_items lower isspace s1))
               = recompute lower isspace (choices s) v)
    by (rewrite ensure_eq; cbn; now rewrite filter_items_filtered).
  split; [exact Hg|]. split; [|split; [|split; [exact Hf|]]].
  - unfold key_tab, _accept_selection.
    destruct (filtered_items s); [contradiction|]. cbn [is_empty].
    rewrite Hg. reflexivity.
  - rewrite ensure_eq. cbn. now rewrite filter_items_eq.
  - intros Hstrip. rewrite Hf.
    assert (Hsrc : In v (choices s)).
    { unfold consistent in Hc. rewrite Hc in Hin.
      now apply recompute_In in Hin. }
    assert (Hvin : In v (recompute lower isspace (choices s) v)).
    { apply recompute_In. split; [exact Hsrc|].
      destruct v as [|c t]; [left; reflexivity|right].
      rewrite Hstrip. apply str_in_refl. }
    assert (Hidx : index v (recompute lower isspace (choices s) v)
                   = Some (selected_index
                             (_ensure_selection_visible false
                                (filter_items lower isspace s1)))).
    { replace (selected_index
                 (_ensure_selection_visible false
                    (filter_items lower isspace s1)))
        with (selected_index (filter_items lower isspace s1))
        by (rewrite (ensure_eq false); reflexivity).
      assert (Hs1 : sel_ok s1) by (now destruct s).
      destruct (@filter_items_selection lower isspace s1 v Hs1 Hne Hg)
        as [Hidx _].
      - intros -> H0. rewrite filter_items_filtered in *.
        now apply index_nil_recompute_plain.
      - rewrite filter_items_filtered in Hidx. now apply Hidx. }
    destruct (index_getitem _ _ Hidx) as [Hrow Hfirst].
    split; [exact Hvin|]. split; [exact Hrow|]. split; [exact Hfirst|].
    split; [exact Hidx|].
    destruct (recompute lower isspace (choices s) v) as [|top rest] eqn:E;
      [destruct Hvin|].
    exists top, rest. split; [reflexivity|].
    destruct v as [|c t].
    + assert (H1 : index [] (top :: rest) = Some 0).
      { rewrite <- E. apply index_nil_recompute_plain; [reflexivity|].
        rewrite E. exact Hvin. }
      assert (Htop : top = []).
      { destruct (index_getitem _ _ H1) as [H2 _]. cbn in H2. congruence. }
      subst top. repeat split; auto. intros H; now contradiction H.
    + assert (Hv : c :: t <> []) by discriminate.
      destruct (recompute_self_top lower isspace (choices s) Hv Hstrip Hsrc E)
        as [Hts Hlow].
      split; [exact Hlow|]. split; [discriminate|]. split.
      * intros _.
        exact (recompute_self_first lower isspace (choices s) Hv Hstrip
                 Hsrc E).
      * intros Huniq. now apply Huniq.
Qed.

Lemma accept_round_trip_witness :
  let s :=
    key_down
      (key_down
         (init ascii_lower ascii_isspace (lit "> ")
            [lit "nf-fa-heart_o"; lit "NF-FA-HEART"; lit "nf-fa-heart";
             lit "nf-cod-heart"] 6)) in
  reachable ascii_lower ascii_isspace s
  /\ filtered_items s <> []
  /\ getitem (filtered_items s) (selected_index s) = Some (lit "nf-fa-heart")
  /\ (exists s1,
        key_tab ascii_lower ascii_isspace s = Ok s1
        /\ filtered_items s1
           = [lit "NF-FA-HEART"; lit "nf-fa-heart"; lit "nf-fa-heart_o"]
        /\ selected_index s1 = 1)
  /\ exists v s',
      getitem (filtered_items s) (selected_index s) = Some v
      /\ key_tab ascii_lower ascii_isspace s = Ok s'
      /\ input_text s' = v
      /\ filtered_items s'
         = recompute ascii_lower ascii_isspace (choices s) v
      /\ (strip ascii_isspace v = v ->
          In v (filtered_items s')
          /\ getitem (filtered_items s') (selected_index s') = Some v
          /\ (forall j, 0 <= j < selected_index s' ->
                        getitem (filtered_items s') j <> Some v)
          /\ index v (filtered_items s') = Some (selected_index s')
          /\ exists top rest,
              filtered_items s' = top :: rest
              /\ ascii_lower top = ascii_lower v
              /\ (v = [] -> top = v)
              /\ (v <> [] ->
                  exists others,
                    List.filter
                      (fun y => str_eqb (ascii_lower y) (ascii_lower v))
                      (choices s)
                    = top :: others)
              /\ ((forall y, In y (choices s) ->
                             ascii_lower y = ascii_lower v -> y = v) ->
                  top = v)).
Proof.
  intros s.
  assert (Hr : reachable ascii_lower ascii_isspace s).
  { eapply reach_step with (k := KeyDown); [|reflexivity].
    eapply reach_step with (k := KeyDown); [apply reach_init|reflexivity]. }
  assert (Hne : filtered_items s <> []) by (vm_compute; discriminate).
  split; [exact Hr|]. split; [exact Hne|]. split; [reflexivity|].
  split; [eexists; split; [reflexivity|split; reflexivity]|].
  exact (accept_round_trip Hr Hne).
Defined.

(** C7 as stated fails in two ways.  When another candidate differs from
    the accepted one by letter case only and stands before it: with the
    candidates ["ABC"] and ["abc"], accepting ["abc"] leaves ["ABC"] on top.
    When the accepted candidate has leading or trailing whitespace, which
    the re-filter trims: with the candidates [" a"] and ["ab"], accepting
    [" a"] filters on ["a"] and puts ["ab"] on top. *)
Lemma accept_round_trip_not_on_top :
  (let s :=
     key_down
       (init ascii_lower ascii_isspace (lit "> ") [lit "ABC"; lit "abc"] 6) in
   reachable ascii_lower ascii_isspace s
   /\ filtered_items s <> []
   /\ getitem (filtered_items s) (selected_index s) = Some (lit "abc")
   /\ ~ exists v s',
         getitem (filtered_items s) (selected_index s) = Some v
         /\ key_tab ascii_lower ascii_isspace s = Ok s'
         /\ input_text s' = v
         /\ hd_error (filtered_items s') = Some v)
  /\ (let s :=
        init ascii_lower ascii_isspace (lit "> ") [lit " a"; lit "ab"] 6 in
      reachable ascii_lower ascii_isspace s
      /\ filtered_items s <> []
      /\ getitem (filtered_items s) (selected_index s) = Some (lit " a")
      /\ ~ exists v s',
            getitem (filtered_items s) (selected_index s) = Some v
            /\ key_tab ascii_lower ascii_isspace s = Ok s'
            /\ input_text s' = v
            /\ hd_error (filtered_items s') = Some v).
Proof.
  split; intros s.
  - split.
    { eapply reach_step with (k := KeyDown); [apply reach_init|reflexivity]. }
    split; [vm_compute; discriminate|]. split; [reflexivity|].
    intros [v [s' [Hg [Ht [_ Hh]]]]].
    vm_compute in Hg. injection Hg as <-.
    vm_compute in Ht. injection Ht as <-.
    vm_compute in Hh. discriminate.
  - split; [apply reach_init|].
    split; [vm_compute; discriminate|]. split; [reflexivity|].
    intros [v [s' [Hg [Ht [_ Hh]]]]].
    vm_compute in Hg. injection Hg as <-.
    vm_compute in Ht. injection Ht as <-.
    vm_compute in Hh. discriminate.
Qed.

(** C8.  On enter the application exits with the input text when it is not
    empty; with the candidate at the selected index when the input text is
    empty and the filtered list is not; with the empty text when both are
    empty. *)
Theorem submit_contract
  (lower : str -> str) (isspace : char -> bool) (s : Session) :
  reachable lower isspace s ->
  (input_text s <> [] ->
   handle lower isspace KeyEnter s = Ok (Exit (input_text s)))
  /\ (input_text s = [] -> filtered_items s <> [] ->
      exists v,
        0 <= selected_index s < len (filtered_items s)
        /\ nth_error (filtered_items s) (Z.to_nat (selected_index s)) = Some v
        /\ handle lower isspace KeyEnter s = Ok (Exit v))
  /\ (input_text s = [] -> filtered_items s = [] ->
      handle lower isspace KeyEnter s = Ok (Exit [])).
Proof.
  intros Hreach. destruct (reachable_inv Hreach) as [_ [Hs _]].
  cbn [handle]. unfold key_enter. split; [|split].
  - intros H. destruct (input_text s); [contradiction|reflexivity].
  - intros Ht Hf. rewrite Ht. unfold sel_ok in Hs.
    destruct (filtered_items s) as [|y l] eqn:E; [contradiction|].
    destruct (@getitem_in_range _ (y :: l) (selected_index s) Hs)
      as [v [Hg [Hn _]]].
    exists v. cbn [is_empty negb andb]. rewrite Hg. auto.
  - intros Ht Hf. rewrite Ht, Hf. reflexivity.
Qed.

Lemma submit_contract_witness :
  let s :=
    key_down
      (init ascii_lower ascii_isspace (lit "> ") [lit "b"; lit "a"; lit "c"] 6)
  in
  reachable ascii_lower ascii_isspace s
  /\ handle ascii_lower ascii_isspace KeyEnter s = Ok (Exit (lit "b"))
  /\ (input_text s = [] -> filtered_items s <> [] ->
      exists v,
        0 <= selected_index s < len (filtered_items s)
        /\ nth_error (filtered_items s) (Z.to_nat (selected_index s)) = Some v
        /\ handle ascii_lower ascii_isspace KeyEnter s = Ok (Exit v)).
Proof.
  intros s.
  assert (Hr : reachable ascii_lower ascii_isspace s).
  { eapply reach_step with (k := KeyDown); [apply reach_init|reflexivity]. }
  split; [exact Hr|]. split; [reflexivity|].
  exact (proj1 (proj2 (submit_contract Hr))).
Defined.

(** ** The dataset loader *)

Section LoaderFacts.
Variable int16 : str -> option Z.
Variable upper : str -> str.

Lemma load_items_in_range (raw : list (str * str)) (items : list str) :
  (forall e i, In e raw -> int16 (snd e) = Some i ->
               - 2147483648 <= i <= 2147483647) ->
  load_items int16 upper raw items
  = Ok (items ++ flat_map (entry_candidates int16 upper) raw).
Proof.
  revert items. induction raw as [|[name hex_value] raw IH];
    intros items H; cbn [load_items flat_map].
  - now rewrite app_nil_r.
  - assert (Hraw : forall e i, In e raw -> int16 (snd e) = Some i ->
                     - 2147483648 <= i <= 2147483647)
      by (intros e i He; apply H; now right).
    pose proof (H (name, hex_value)) as Hhd. cbn [snd] in Hhd.
    unfold parse_glyph, entry_candidates, chr. cbn [fst snd].
    destruct (int16 hex_value) as [i|]; cbn [of_option bind].
    + specialize (Hhd i (or_introl eq_refl) eq_refl).
      destruct (Z.ltb_spec i (- 2147483648)); [lia|].
      destruct (Z.ltb_spec 2147483647 i); [lia|]. cbn [orb].
      destruct ((0 <=? i) && (i <? 1114112)).
      * rewrite IH by exact Hraw. now rewrite <- app_assoc.
      * now apply IH.
    + now apply IH.
Qed.

(** The part of C9 that holds: when every value that parses fits a C
    [int], the loader returns the candidates of the entries whose value is
    the code of a glyph, in the order of the mapping, and skips the
    others. *)
Lemma load_nerdicons_in_range (raw : list (str * str)) :
  (forall e i, In e raw -> int16 (snd e) = Some i ->
               - 2147483648 <= i <= 2147483647) ->
  load_nerdicons int16 upper (Some raw)
  = Ok (flat_map (entry_candidates int16 upper) raw).
Proof. intros H. cbn [load_nerdicons]. now rewrite load_items_in_range. Qed.

Lemma load_nerdicons_missing : load_nerdicons int16 upper None = Ok [].
Proof. reflexivity. Qed.

(** A value beyond the range of a C [int] stops the loader. *)
Lemma load_items_overflow (name hex_value : str) (i : Z)
  (raw : list (str * str)) (items : list str) :
  int16 hex_value = Some i -> 2147483647 < i ->
  load_items int16 upper ((name, hex_value) :: raw) items
  = Raise OverflowError.
Proof.
  intros Hi Hbig. cbn [load_items]. unfold parse_glyph, chr. rewrite Hi.
  cbn [of_option bind].
  destruct (Z.ltb_spec 2147483647 i); [|lia].
  now rewrite orb_true_r.
Qed.
End LoaderFacts.

(** C9 at the dataset [{"heart": "f004", "wide": "80000000"}]: the value
    ["80000000"] is a hexadecimal number that is not the code of a glyph;
    [chr] raises [OverflowError] on it, which the [except ValueError] of the
    loop does not catch, so the loader raises instead of skipping the
    entry. *)
Theorem load_nerdicons_wide_value :
  load_nerdicons hex_plain ascii_upper
    (Some [(lit "heart", lit "f004"); (lit "wide", lit "80000000")])
  = Raise OverflowError.
Proof. reflexivity. Qed.

(** * Further properties *)

(** ** Truncation and columns *)

Lemma len_nil {A : Type} : len (@nil A) = 0.
Proof. reflexivity. Qed.

Lemma len_repeat {A : Type} (x : A) (n : nat) : len (repeat x n) = Z.of_nat n.
Proof. unfold len. now rewrite repeat_length. Qed.

Lemma len_ljust (text : str) (width : Z) :
  len (ljust text width) = Z.max (len text) width.
Proof.
  unfold ljust. rewrite len_app, len_repeat.
  pose proof (len_nonneg text). lia.
Qed.

Lemma len_firstn {A : Type} (n : nat) (l : list A) :
  len (firstn n l) = Z.min (Z.of_nat n) (len l).
Proof. unfold len. rewrite length_firstn. lia. Qed.

Lemma len_truncate (text : str) (width : Z) :
  len (_truncate text width) = Z.min (len text) (Z.max width 0).
Proof.
  unfold _truncate. pose proof (len_nonneg text).
  destruct (Z.leb_spec width 0); [rewrite len_nil; lia|].
  destruct (Z.leb_spec (len text) width); [lia|].
  destruct (Z.eqb_spec width 1); [rewrite len_cons, len_nil; lia|].
  rewrite len_app, len_firstn, len_cons, len_nil. lia.
Qed.

(** X1.  [_truncate] returns [min(len(text), max(width, 0))] characters: the
    text as it is when it fits, and otherwise exactly [width] characters,
    which are the first [width - 1] characters of the text and an
    ellipsis. *)
Theorem truncate_shape (text : str) (width : Z) :
  len (_truncate text width) = Z.min (len text) (Z.max width 0)
  /\ (len text <= width -> _truncate text width = text)
  /\ (0 < width < len text ->
      _truncate text width
      = firstn (Z.to_nat (width - 1)) text ++ [ellipsis]).
Proof.
  split; [apply len_truncate|]. unfold _truncate.
  pose proof (len_nonneg text). split; intros Hw.
  - destruct (Z.leb_spec width 0).
    + destruct text; [reflexivity|rewrite len_cons in *].
      pose proof (len_nonneg text). lia.
    + destruct (Z.leb_spec (len text) width); [reflexivity|lia].
  - destruct (Z.leb_spec width 0); [lia|].
    destruct (Z.leb_spec (len text) width); [lia|].
    destruct (Z.eqb_spec width 1) as [->|]; reflexivity.
Qed.

Lemma truncate_shape_witness :
  len (lit "nf-fa-heart") <= 11
  /\ _truncate (lit "nf-fa-heart") 11 = lit "nf-fa-heart"
  /\ 0 < 4 < len (lit "nf-fa-heart")
  /\ _truncate (lit "nf-fa-heart") 4 = lit "nf-" ++ [ellipsis].
Proof.
  split; [vm_compute; discriminate|].
  split; [apply (truncate_shape (lit "nf-fa-heart") 11);
          vm_compute; discriminate|].
  split; [vm_compute; split; reflexivity|].
  apply (truncate_shape (lit "nf-fa-heart") 4). vm_compute; split; reflexivity.
Defined.

(** X2.  Truncating twice to the same width is truncating once. *)
Theorem truncate_idempotent (text : str) (width : Z) :
  _truncate (_truncate text width) width = _truncate text width.
Proof.
  pose proof (len_truncate text width) as Hl.
  unfold _truncate at 1.
  destruct (Z.leb_spec width 0) as [Hw|Hw].
  - unfold _truncate. destruct (Z.leb_spec width 0); [reflexivity|lia].
  - destruct (Z.leb_spec (len (_truncate text width)) width); [reflexivity|].
    lia.
Qed.

Lemma split_once_at (a b : str) :
  ~ In space a -> split_once (a ++ space :: b) = Some (a, b).
Proof.
  induction a as [|c a IH]; intros H; cbn [app split_once].
  - reflexivity.
  - destruct (N.eqb_spec c 32) as [->|_]; [exfalso; apply H; now left|].
    rewrite IH; [reflexivity|]. intros Hin; apply H; now right.
Qed.

Lemma rsplit_once_at (a b : str) :
  ~ In space b -> rsplit_once (a ++ space :: b) = Some (a, b).
Proof.
  intros H. unfold rsplit_once.
  replace (rev (a ++ space :: b)) with (rev b ++ space :: rev a)
    by (rewrite rev_app_distr; cbn [rev]; now rewrite <- app_assoc).
  rewrite split_once_at by (now rewrite <- in_rev).
  now rewrite !rev_involutive.
Qed.

Lemma len_format_item_columns (item : str) (content_width : Z) :
  len (_format_item_columns item content_width) <= Z.max content_width 0.
Proof.
  unfold _format_item_columns.
  assert (Ht : len (_truncate item content_width) <= Z.max content_width 0)
    by (rewrite len_truncate; lia).
  destruct (Z.leb_spec content_width 0); [rewrite len_nil; lia|].
  destruct (split_once item) as [[glyph rest]|]; [|exact Ht].
  destruct (rsplit_once rest) as [[name code]|]; [|exact Ht].
  match goal with
  | |- context [content_width <=? ?b] =>
      destruct (Z.leb_spec content_width b) as [Hb|Hb]; [exact Ht|]
  end.
  cbn [List.length len] in Hb.
  set (ns := content_width - (len glyph + len code + len [space; middle_dot; space] * 2)) in *.
  pose proof (len_truncate name ns) as Hn. pose proof (len_nonneg name).
  change (len [space; middle_dot; space]) with 3 in *.
  destruct (Z.ltb_spec (len (_truncate name ns)) ns);
    rewrite !len_app, ?len_ljust;
    change (len [space; middle_dot; space]) with 3; lia.
Qed.

(** X3.  A formatted row never exceeds the width it is given:
    [_format_item_columns] returns at most [max(content_width, 0)]
    characters, in the column layout and in the fallback alike. *)
Theorem format_item_columns_width (item : str) (content_width : Z) :
  len (_format_item_columns item content_width) <= Z.max content_width 0
  /\ (content_width <= 0 -> _format_item_columns item content_width = []).
Proof.
  split; [apply len_format_item_columns|].
  intros H. unfold _format_item_columns.
  destruct (Z.leb_spec content_width 0); [reflexivity|lia].
Qed.

Lemma format_item_columns_width_witness :
  0 <= 0
  /\ _format_item_columns (lit "X nf-fa-heart (U+F004)") 0 = [].
Proof.
  split; [lia|].
  apply (format_item_columns_width (lit "X nf-fa-heart (U+F004)") 0). lia.
Defined.

(** X4.  An item made of a glyph, a name and a code separated by single
    spaces, where the glyph and the code hold no space, is laid out in
    columns when the width leaves at least two characters to the name: the
    glyph, a separator, the name truncated or padded to the remaining
    width, a separator, the code; the row is exactly [content_width] wide,
    so the codes of all rows end in the same column. *)
Theorem format_item_columns_aligned
  (glyph name code : str) (content_width : Z) :
  ~ In space glyph -> ~ In space code ->
  len glyph + len code + 7 < content_width ->
  let name_space := content_width - (len glyph + len code + 6) in
  let field := ljust (_truncate name name_space) name_space in
  _format_item_columns (glyph ++ space :: name ++ space :: code) content_width
  = glyph ++ [space; middle_dot; space] ++ field
    ++ [space; middle_dot; space] ++ code
  /\ len field = name_space
  /\ len (_format_item_columns (glyph ++ space :: name ++ space :: code)
            content_width) = content_width.
Proof.
  intros Hg Hc Hw name_space field.
  pose proof (len_nonneg glyph). pose proof (len_nonneg code).
  assert (Hfield : len field = name_space).
  { subst field. rewrite len_ljust, len_truncate.
    pose proof (len_nonneg name). lia. }
  assert (E : _format_item_columns (glyph ++ space :: name ++ space :: code)
                content_width
              = glyph ++ [space; middle_dot; space] ++ field
                ++ [space; middle_dot; space] ++ code).
  { unfold _format_item_columns.
    destruct (Z.leb_spec content_width 0); [lia|].
    rewrite split_once_at by exact Hg.
    rewrite rsplit_once_at by exact Hc.
    change (len [space; middle_dot; space] * 2) with 6.
    destruct (Z.leb_spec content_width (len glyph + len code + 6 + 1)); [lia|].
    fold name_space.
    destruct (Z.ltb_spec (len (_truncate name name_space)) name_space) as [Hl|Hl].
    - reflexivity.
    - subst field. unfold ljust.
      replace (Z.to_nat (name_space - len (_truncate name name_space)))
        with 0%nat.
      + cbn [repeat]. now rewrite app_nil_r.
      + pose proof (len_truncate name name_space). lia. }
  split; [exact E|]. split; [exact Hfield|].
  rewrite E, !len_app, Hfield.
  change (len [space; middle_dot; space]) with 3. lia.
Qed.

Lemma format_item_columns_aligned_witness :
  ~ In space (lit "X") /\ ~ In space (lit "(U+F004)")
  /\ len (lit "X") + len (lit "(U+F004)") + 7 < 30
  /\ _format_item_columns
       (lit "X" ++ space :: lit "nf-fa-heart" ++ space :: lit "(U+F004)") 30
     = lit "X" ++ [space; middle_dot; space]
       ++ ljust (_truncate (lit "nf-fa-heart") 15) 15
       ++ [space; middle_dot; space] ++ lit "(U+F004)".
Proof.
  assert (Hg : ~ In space (lit "X"))
    by (vm_compute; intros [H|[]]; discriminate).
  assert (Hc : ~ In space (lit "(U+F004)"))
    by (vm_compute; intuition discriminate).
  assert (Hw : len (lit "X") + len (lit "(U+F004)") + 7 < 30)
    by (vm_compute; reflexivity).
  split; [exact Hg|]. split; [exact Hc|]. split; [exact Hw|].
  exact (proj1 (@format_item_columns_aligned (lit "X") (lit "nf-fa-heart")
                  (lit "(U+F004)") 30 Hg Hc Hw)).
Defined.

(** ** The session: what the handlers keep *)

Lemma set_view_start_same (s : Session) : set_view_start s (view_start s) = s.
Proof. now destruct s. Qed.

Lemma ensure_fixed (s : Session) :
  sel_ok s -> view_ok s -> _ensure_selection_visible false s = s.
Proof.
  intros Hs Hv. rewrite ensure_eq.
  transitivity (set_view_start s (view_start s));
    [f_equal|apply set_view_start_same].
  unfold view_ok, sel_ok in *.
  destruct (filtered_items s) as [|y l] eqn:E.
  - rewrite ensure_view_start_empty by exact E. now symmetry.
  - rewrite ensure_view_start by (rewrite E; discriminate). rewrite E.
    destruct (max_rows s <=? 0); [now symmetry|].
    now apply minimal_adjust_policy_fixed.
Qed.

Section HandlerFacts.
Variable lower : str -> str.
Variable isspace : char -> bool.

Lemma filter_items_settings (s : Session) :
  same_settings s (filter_items lower isspace s).
Proof. rewrite filter_items_eq. repeat split. Qed.

Lemma filter_items_input (s : Session) :
  input_text (filter_items lower isspace s) = input_text s.
Proof. now rewrite filter_items_eq. Qed.

Lemma same_settings_trans (s s' s'' : Session) :
  same_settings s s' -> same_settings s' s'' -> same_settings s s''.
Proof. unfold same_settings. intuition congruence. Qed.

Lemma key_tab_ok (s : Session) :
  sel_ok s ->
  exists s', key_tab lower isspace s = Ok s'
             /\ same_settings s s'
             /\ (filtered_items s = [] -> s' = s)
             /\ (forall v,
                   getitem (filtered_items s) (selected_index s) = Some v ->
                   filtered_items s <> [] ->
                   s' = filter_items lower isspace (set_input_text s v)).
Proof.
  intros Hs. unfold key_tab, _accept_selection.
  destruct (filtered_items s) as [|y l] eqn:E; cbn [is_empty].
  - exists s. repeat split; auto. intros v _ H. now contradiction H.
  - unfold sel_ok in Hs. rewrite E in Hs.
    destruct (@getitem_in_range _ (y :: l) (selected_index s) Hs)
      as [v [Hg _]].
    rewrite Hg. cbn [of_option bind]. eexists. split; [reflexivity|].
    rewrite ensure_fixed
      by (apply filter_items_sel_ok || apply filter_items_view_ok).
    split; [|split].
    + eapply same_settings_trans; [|apply filter_items_settings].
      repeat split.
    + discriminate.
    + intros v' Hv' _. congruence.
Qed.

Lemma handle_settings (k : Key) (s s' : Session) :
  handle lower isspace k s = Ok (Continue s') -> same_settings s s'.
Proof.
  destruct k; cbn [handle].
  - intros [= <-]. rewrite key_up_eq. repeat split.
  - intros [= <-]. rewrite key_down_eq. repeat split.
  - unfold key_tab.
    destruct (is_empty (filtered_items s)); [intros [= <-]; repeat split|].
    unfold _accept_selection.
    destruct (is_empty (filtered_items s)); cbn [bind].
    + intros [= <-]. rewrite ensure_eq.
      eapply same_settings_trans;
        [apply filter_items_settings|repeat split].
    + destruct (getitem (filtered_items s) (selected_index s)) as [v|];
        cbn [of_option bind]; [|discriminate].
      intros [= <-]. rewrite ensure_eq.
      eapply same_settings_trans with (s' := set_input_text s v);
        [repeat split|].
      eapply same_settings_trans;
        [apply filter_items_settings|repeat split].
  - destruct (key_enter s); discriminate.
  - intros [= <-]. unfold key_escape.
    eapply same_settings_trans; [|apply filter_items_settings]. repeat split.
  - intros [= <-]. unfold key_backspace.
    destruct (is_empty (input_text s)); [repeat split|].
    eapply same_settings_trans; [|apply filter_items_settings]. repeat split.
  - intros [= <-]. unfold key_ctrl_u.
    eapply same_settings_trans; [|apply filter_items_settings]. repeat split.
  - discriminate.
  - destruct (existsb (N.eqb c) bound_chars); intros [= <-];
      [|repeat split].
    unfold key_char.
    eapply same_settings_trans; [|apply filter_items_settings]. repeat split.
Qed.

Lemma reachable_geometry (s : Session) :
  reachable lower isspace s ->
  panel_width s = 80 /\ panel_inner_width s = 76.
Proof.
  induction 1 as [prompt cs rows|s k s' _ IH Hstep].
  - unfold init. rewrite filter_items_eq. split; reflexivity.
  - apply handle_settings in Hstep. unfold same_settings in Hstep.
    intuition congruence.
Qed.

Lemma recompute_nil (input : str) : recompute lower isspace [] input = [].
Proof.
  unfold recompute. now destruct (is_empty (strip isspace input)).
Qed.

(** The selected index of a re-filtered session is the first index of the
    selected item. *)
Lemma filter_items_first_index (s : Session) (v : str) :
  let s' := filter_items lower isspace s in
  getitem (filtered_items s') (selected_index s') = Some v ->
  index v (filtered_items s') = Some (selected_index s')
  /\ (v = [] -> selected_index s' = 0).
Proof.
  intros s'. subst s'. rewrite filter_items_filtered.
  destruct (filter_items_cases lower isspace s)
    as [[E ->]|[Hout [i [-> [Hi Hcase]]]]].
  - rewrite E. cbn. discriminate.
  - replace (selected_index (_ensure_selection_visible _ _)) with i
      by (rewrite ensure_eq; reflexivity).
    set (out := recompute lower isspace (choices s) (input_text s)) in *.
    intros Hg.
    destruct (@getitem_in_range _ out i Hi) as [v' [Hg' [Hn _]]].
    assert (v' = v) by congruence. subst v'.
    destruct Hcase as [[v0 [_ [Hv0 [Hin Hidx]]]]|[_ ->]].
    + destruct (index_In _ _ Hin) as [j [Hj [_ Hnj]]].
      assert (j = i) by congruence. subst j.
      assert (v0 = v) by congruence. subst v0.
      split; [exact Hidx|]. intros ->. now contradiction Hv0.
    + split; [|reflexivity].
      destruct out as [|y l]; [contradiction|].
      cbn in Hn. injection Hn as ->. cbn [index].
      now rewrite str_eqb_refl.
Qed.

Lemma refilter_fixed (s : Session) :
  consistent lower isspace s -> sel_ok s -> view_ok s ->
  (forall v, getitem (filtered_items s) (selected_index s) = Some v ->
             index v (filtered_items s) = Some (selected_index s)
             /\ (v = [] -> selected_index s = 0)) ->
  filter_items lower isspace s = s.
Proof.
  intros Hc Hs Hv Hfirst. unfold consistent in Hc.
  destruct (filter_items_cases lower isspace s)
    as [[E ->]|[Hout [i [-> [Hi Hcase]]]]]; rewrite <- Hc in *.
  - unfold sel_ok, view_ok in *. rewrite E in Hs, Hv. clear Hc E Hfirst.
    destruct s as [p c m w iw t f sel vs]. cbn in *.
    now rewrite Hs, Hv.
  - destruct (previous_value_selected s Hs Hout) as [v [Hpv [Hg Hin]]].
    rewrite Hpv in *. cbn [opt_in] in *.
    rewrite (proj2 (list_in_In v (filtered_items s)) Hin) in *.
    destruct (Hfirst v Hg) as [Hidx Hnil].
    assert (i = selected_index s).
    { destruct Hcase as [[v0 [Hv0 [_ [_ H0]]]]|[[Hn|[Hn|Hn]] ->]].
      - injection Hv0 as <-. congruence.
      - discriminate.
      - injection Hn as ->. symmetry. now apply Hnil.
      - discriminate. }
    subst i. cbn [negb].
    replace (set_selected_index (set_filtered_items s (filtered_items s))
               (selected_index s)) with s by (now destruct s).
    now apply ensure_fixed.
Qed.
End HandlerFacts.

(** X5.  In a session, no key handler raises [IndexError]: up, down, tab,
    escape, backspace, ctrl-u and the characters leave a session that goes
    on, enter exits with a text, and ctrl-c is the only key that raises,
    with [KeyboardInterrupt]. *)
Theorem handlers_never_fail
  (lower : str -> str) (isspace : char -> bool) (s : Session) (k : Key) :
  reachable lower isspace s ->
  match k with
  | KeyCtrlC => handle lower isspace k s = Raise KeyboardInterrupt
  | KeyEnter => exists text, handle lower isspace k s = Ok (Exit text)
  | _ =>
      exists s', handle lower isspace k s = Ok (Continue s')
                 /\ reachable lower isspace s'
  end.
Proof.
  intros Hreach. destruct (reachable_inv Hreach) as [_ [Hs _]].
  assert (Hstep : forall k' s',
             handle lower isspace k' s = Ok (Continue s') ->
             exists s'', handle lower isspace k' s = Ok (Continue s'')
                         /\ reachable lower isspace s'').
  { intros k' s' H. exists s'. split; [exact H|].
    eapply reach_step; eauto. }
  destruct k; try (eapply Hstep; reflexivity).
  - destruct (key_tab_ok lower isspace s Hs) as [s' [Ht _]].
    apply (Hstep KeyTab s'). cbn [handle]. now rewrite Ht.
  - cbn [handle]. unfold key_enter, sel_ok in *.
    destruct (input_text s); cbn [is_empty andb];
      [|eexists; reflexivity].
    destruct (filtered_items s) as [|y l] eqn:E; cbn [is_empty negb];
      [eexists; reflexivity|].
    destruct (@getitem_in_range _ (y :: l) (selected_index s) Hs)
      as [v [-> _]].
    eexists; reflexivity.
  - reflexivity.
  - destruct (existsb (N.eqb c) bound_chars) eqn:Eb.
    + apply (Hstep (KeyChar c) (key_char lower isspace c s)).
      cbn [handle]. now rewrite Eb.
    + apply (Hstep (KeyChar c) s). cbn [handle]. now rewrite Eb.
Qed.

Lemma handlers_never_fail_witness :
  let s :=
    init ascii_lower ascii_isspace (lit "> ") [lit "b"; lit "a"] 6 in
  reachable ascii_lower ascii_isspace s
  /\ exists s',
      handle ascii_lower ascii_isspace KeyTab s = Ok (Continue s')
      /\ reachable ascii_lower ascii_isspace s'.
Proof.
  intros s.
  assert (Hr : reachable ascii_lower ascii_isspace s) by apply reach_init.
  split; [exact Hr|].
  exact (@handlers_never_fail ascii_lower ascii_isspace s KeyTab Hr).
Defined.

(** X6.  No key handler changes the settings of the session: the prompt
    text, the candidate list, [max_rows] and the panel widths of the session
    a handler leaves are those it found. *)
Theorem handle_keeps_settings
  (lower : str -> str) (isspace : char -> bool) (k : Key) (s s' : Session) :
  handle lower isspace k s = Ok (Continue s') ->
  prompt_text s' = prompt_text s
  /\ choices s' = choices s
  /\ max_rows s' = max_rows s
  /\ panel_width s' = panel_width s
  /\ panel_inner_width s' = panel_inner_width s.
Proof. intros H. exact (@handle_settings lower isspace k s s' H). Qed.

Lemma handle_keeps_settings_witness :
  let s :=
    init ascii_lower ascii_isspace (lit "> ") [lit "b"; lit "a"] 6 in
  let s' := key_char ascii_lower ascii_isspace 97%N s in
  handle ascii_lower ascii_isspace (KeyChar 97%N) s = Ok (Continue s')
  /\ choices s' = choices s.
Proof.
  intros s s'.
  assert (H : handle ascii_lower ascii_isspace (KeyChar 97%N) s
              = Ok (Continue s')) by reflexivity.
  split; [exact H|].
  exact (proj1 (proj2 (@handle_keeps_settings ascii_lower ascii_isspace
                         (KeyChar 97%N) s s' H))).
Defined.

(** X7.  In every state of a session the filtered list is the one computed
    from the candidates and the current input text, so every filtered item
    is a candidate; with no candidates it is empty whatever was typed. *)
Theorem session_filtered_consistent
  (lower : str -> str) (isspace : char -> bool) (s : Session) :
  reachable lower isspace s ->
  filtered_items s = recompute lower isspace (choices s) (input_text s)
  /\ (forall x, In x (filtered_items s) -> In x (choices s))
  /\ (choices s = [] -> filtered_items s = []).
Proof.
  intros Hreach. destruct (reachable_inv Hreach) as [Hc _].
  unfold consistent in Hc. split; [exact Hc|]. split.
  - intros x Hx. rewrite Hc in Hx. now apply recompute_In in Hx.
  - intros E. rewrite Hc, E. apply recompute_nil.
Qed.

Lemma session_filtered_consistent_witness :
  let s :=
    key_char ascii_lower ascii_isspace 97%N
      (init ascii_lower ascii_isspace (lit "> ") [lit "b"; lit "a"] 6) in
  reachable ascii_lower ascii_isspace s
  /\ forall x, In x (filtered_items s) -> In x (choices s).
Proof.
  intros s.
  assert (Hr : reachable ascii_lower ascii_isspace s).
  { eapply reach_step with (k := KeyChar 97%N);
      [apply reach_init|reflexivity]. }
  split; [exact Hr|].
  exact (proj1 (proj2 (session_filtered_consistent Hr))).
Defined.

(** X8.  In every state of a session the selected index is an index of the
    filtered list when it is not empty, the selected index and the window
    start are 0 when it is empty, and the window start is never
    negative. *)
Theorem session_index_bounds
  (lower : str -> str) (isspace : char -> bool) (s : Session) :
  reachable lower isspace s ->
  (filtered_items s <> [] ->
   0 <= selected_index s < len (filtered_items s))
  /\ (filtered_items s = [] -> selected_index s = 0 /\ view_start s = 0)
  /\ 0 <= view_start s
  /\ (max_rows s <= 0 -> view_start s = 0).
Proof.
  intros Hreach. destruct (reachable_inv Hreach) as [_ [Hs Hv]].
  unfold sel_ok, view_ok, shows in *.
  destruct (filtered_items s) as [|y l].
  - repeat split; try tauto; lia.
  - destruct (Z.leb_spec (max_rows s) 0).
    + repeat split; try discriminate; try tauto; lia.
    + repeat split; try discriminate; try tauto; lia.
Qed.

Lemma session_index_bounds_witness :
  let s :=
    key_down
      (init ascii_lower ascii_isspace (lit "> ") [lit "b"; lit "a"] 6) in
  reachable ascii_lower ascii_isspace s /\ 0 <= view_start s.
Proof.
  intros s.
  assert (Hr : reachable ascii_lower ascii_isspace s).
  { eapply reach_step with (k := KeyDown); [apply reach_init|reflexivity]. }
  split; [exact Hr|].
  exact (proj1 (proj2 (proj2 (session_index_bounds Hr)))).
Defined.

(** ** Navigation, accept and edits *)

(** X9.  Navigation saturates and never wraps around: up moves the selected
    index to [max(selected_index - 1, 0)], down to [min(selected_index + 1,
    len(filtered) - 1)], and on an empty filtered list both leave the state
    as it is. *)
Theorem navigation_saturates
  (lower : str -> str) (isspace : char -> bool) (s : Session) :
  reachable lower isspace s ->
  (filtered_items s = [] -> key_up s = s /\ key_down s = s)
  /\ selected_index (key_up s) = Z.max (selected_index s - 1) 0
  /\ (filtered_items s <> [] ->
      selected_index (key_down s)
      = Z.min (selected_index s + 1) (len (filtered_items s) - 1)).
Proof.
  intros Hreach. destruct (reachable_inv Hreach) as [_ [Hs _]].
  unfold sel_ok in Hs. unfold key_up, key_down.
  destruct (filtered_items s) as [|y l] eqn:E; cbn [is_empty negb andb].
  - split; [auto|]. split; [lia|]. intros H; now contradiction H.
  - split; [discriminate|]. split.
    + destruct (Z.ltb_spec 0 (selected_index s)).
      * rewrite ensure_eq.
        cbn [selected_index set_selected_index set_view_start]. lia.
      * lia.
    + intros _. destruct (Z.ltb_spec (selected_index s) (len (y :: l) - 1)).
      * rewrite ensure_eq.
        cbn [selected_index set_selected_index set_view_start]. lia.
      * lia.
Qed.

Lemma navigation_saturates_witness :
  let s :=
    key_down
      (key_down
         (init ascii_lower ascii_isspace (lit "> ") [lit "b"; lit "a"] 6)) in
  reachable ascii_lower ascii_isspace s
  /\ selected_index s = 1
  /\ selected_index (key_up s) = Z.max (selected_index s - 1) 0.
Proof.
  intros s.
  assert (Hr : reachable ascii_lower ascii_isspace s).
  { eapply reach_step with (k := KeyDown); [|reflexivity].
    eapply reach_step with (k := KeyDown); [apply reach_init|reflexivity]. }
  split; [exact Hr|]. split; [reflexivity|].
  exact (proj1 (proj2 (@navigation_saturates ascii_lower ascii_isspace s Hr))).
Defined.

(** X10.  In a session the viewport adjustment changes nothing when it is
    run again, so the second adjustment of the tab handler is void: tab
    leaves the state of a re-filter with the selected candidate as input
    text, and leaves the state as it is when the filtered list is empty. *)
Theorem tab_is_refilter
  (lower : str -> str) (isspace : char -> bool) (s : Session) :
  reachable lower isspace s ->
  _ensure_selection_visible false s = s
  /\ (filtered_items s = [] -> key_tab lower isspace s = Ok s)
  /\ (filtered_items s <> [] ->
      exists v,
        getitem (filtered_items s) (selected_index s) = Some v
        /\ key_tab lower isspace s
           = Ok (filter_items lower isspace (set_input_text s v))).
Proof.
  intros Hreach. destruct (reachable_inv Hreach) as [_ [Hs Hv]].
  split; [now apply ensure_fixed|].
  destruct (key_tab_ok lower isspace s Hs) as [s' [Ht [_ [He Hn]]]].
  split.
  - intros E. rewrite Ht. f_equal. now apply He.
  - intros Hne.
    destruct (previous_value_selected s Hs Hne) as [v [_ [Hg _]]].
    exists v. split; [exact Hg|]. rewrite Ht. f_equal. now apply Hn.
Qed.

Lemma tab_is_refilter_witness :
  let s :=
    init ascii_lower ascii_isspace (lit "> ") [lit "b"; lit "a"] 6 in
  reachable ascii_lower ascii_isspace s
  /\ _ensure_selection_visible false s = s.
Proof.
  intros s.
  assert (Hr : reachable ascii_lower ascii_isspace s) by apply reach_init.
  split; [exact Hr|].
  exact (proj1 (@tab_is_refilter ascii_lower ascii_isspace s Hr)).
Defined.

(** X11.  Re-filtering is idempotent: [filter_items] run on the state it
    has just left changes nothing, from any state. *)
Theorem filter_items_idempotent
  (lower : str -> str) (isspace : char -> bool) (s : Session) :
  filter_items lower isspace (filter_items lower isspace s)
  = filter_items lower isspace s.
Proof.
  apply refilter_fixed.
  - unfold consistent. rewrite filter_items_filtered.
    destruct (filter_items_settings lower isspace s) as [_ [-> _]].
    now rewrite filter_items_input.
  - apply filter_items_sel_ok.
  - apply filter_items_view_ok.
  - intros v. apply filter_items_first_index.
Qed.

(** X12.  Backspace undoes a typed character: after a character and a
    backspace the input text and the filtered list are those of before. *)
Theorem backspace_undoes_char
  (lower : str -> str) (isspace : char -> bool) (s : Session) (c : char) :
  reachable lower isspace s ->
  let s' := key_backspace lower isspace (key_char lower isspace c s) in
  input_text s' = input_text s
  /\ filtered_items s' = filtered_items s
  /\ choices s' = choices s.
Proof.
  intros Hreach s'. destruct (reachable_inv Hreach) as [Hc _].
  unfold consistent in Hc. subst s'.
  set (s1 := key_char lower isspace c s).
  assert (Hi1 : input_text s1 = input_text s ++ [c])
    by (unfold s1, key_char; now rewrite filter_items_input).
  assert (Hc1 : choices s1 = choices s).
  { unfold s1, key_char.
    destruct (filter_items_settings lower isspace
                (set_input_text s (input_text s ++ [c]))) as [_ [H _]].
    exact H. }
  assert (Hb : key_backspace lower isspace s1
               = filter_items lower isspace
                   (set_input_text s1 (input_text s))).
  { assert (Hne : is_empty (input_text s ++ [c]) = false)
      by (now destruct (input_text s)).
    unfold key_backspace. now rewrite Hi1, Hne, removelast_last. }
  rewrite Hb, filter_items_input, filter_items_filtered.
  destruct (filter_items_settings lower isspace
              (set_input_text s1 (input_text s))) as [_ [H _]].
  rewrite H. cbn [choices input_text set_input_text]. rewrite Hc1.
  repeat split. now symmetry.
Qed.

Lemma backspace_undoes_char_witness :
  let s :=
    init ascii_lower ascii_isspace (lit "> ") [lit "b"; lit "a"] 6 in
  let s' :=
    key_backspace ascii_lower ascii_isspace
      (key_char ascii_lower ascii_isspace 97%N s) in
  reachable ascii_lower ascii_isspace s
  /\ input_text s' = input_text s
  /\ filtered_items s' = filtered_items s
  /\ choices s' = choices s.
Proof.
  intros s s'.
  assert (Hr : reachable ascii_lower ascii_isspace s) by apply reach_init.
  split; [exact Hr|].
  exact (@backspace_undoes_char ascii_lower ascii_isspace s 97%N Hr).
Defined.

Section RunFacts.
Variable lower : str -> str.
Variable isspace : char -> bool.

Lemma strip_nil : strip isspace [] = [].
Proof. reflexivity. Qed.

Lemma init_fields (prompt : str) (cs : list str) (rows : Z) :
  let s := init lower isspace prompt cs rows in
  input_text s = []
  /\ filtered_items s = recompute lower isspace cs []
  /\ selected_index s = 0
  /\ view_start s = 0.
Proof.
  intros s. subst s. unfold init.
  set (s0 := mkSession prompt cs rows 80 (80 - 4) [] [] 0 0).
  split; [now rewrite filter_items_input|].
  split; [now rewrite filter_items_filtered|].
  destruct (filter_items_cases lower isspace s0)
    as [[E ->]|[Hout [i [-> [Hi Hcase]]]]]; [split; reflexivity|].
  change (previous_value s0) with (@None str) in *. cbn [opt_in negb] in *.
  destruct Hcase as [[v [Hv _]]|[_ ->]]; [discriminate|].
  split; [rewrite ensure_eq; reflexivity|].
  rewrite ensure_view_start by exact Hout.
  cbn [max_rows selected_index set_selected_index set_filtered_items].
  destruct (max_rows s0 <=? 0); [reflexivity|].
  unfold clamp.
  match goal with |- Z.max 0 (Z.min 0 ?m) = 0 => assert (0 <= m) by lia end.
  lia.
Qed.

Lemma run_keys_chars (w : str) (ks : list Key) (s : Session) :
  Forall bound w ->
  exists s',
    run_keys lower isspace (List.map KeyChar w ++ ks) s
    = run_keys lower isspace ks s'
    /\ input_text s' = input_text s ++ w.
Proof.
  revert s. induction w as [|c w IH]; intros s Hb.
  - exists s. split; [reflexivity|now rewrite app_nil_r].
  - inversion Hb as [|? ? Hc Hw]; subst. unfold bound in Hc.
    destruct (IH (key_char lower isspace c s) Hw) as [s' [Hr Hi]].
    exists s'. split.
    + cbn [List.map app run_keys handle]. rewrite Hc. cbn [bind]. exact Hr.
    + rewrite Hi. unfold key_char. rewrite filter_items_input.
      cbn [input_text set_input_text]. now rewrite <- app_assoc.
Qed.
End RunFacts.

(** X13.  A new session has an empty input text, lists all the candidates
    in ascending order of the strings, selects the first row and starts the
    window at 0, with a panel 80 wide and 76 inside. *)
Theorem init_state
  (lower : str -> str) (isspace : char -> bool)
  (prompt : str) (cs : list str) (rows : Z) :
  let s := init lower isspace prompt cs rows in
  input_text s = []
  /\ Permutation cs (filtered_items s)
  /\ StronglySorted str_le (filtered_items s)
  /\ selected_index s = 0
  /\ view_start s = 0
  /\ choices s = cs /\ max_rows s = rows
  /\ panel_width s = 80 /\ panel_inner_width s = 76.
Proof.
  intros s. destruct (init_fields lower isspace prompt cs rows)
    as [Hi [Hf [Hsel Hvs]]]. fold s in Hi, Hf, Hsel, Hvs.
  split; [exact Hi|]. rewrite Hf.
  split; [exact (recompute_perm lower isspace cs [])|].
  split; [now apply recompute_sorted_plain|].
  split; [exact Hsel|]. split; [exact Hvs|].
  subst s. unfold init. rewrite filter_items_eq. repeat split.
Qed.

(** X14.  Free text is returned as typed: from a new session, typing a
    non-empty text made of bound characters and pressing enter exits with
    exactly that text, whatever the candidates are. *)
Theorem typed_text_is_returned
  (lower : str -> str) (isspace : char -> bool)
  (prompt : str) (cs : list str) (rows : Z) (w : str) :
  w <> [] -> Forall bound w ->
  run_keys lower isspace (List.map KeyChar w ++ [KeyEnter])
    (init lower isspace prompt cs rows)
  = Ok (Some w).
Proof.
  intros Hw Hb.
  destruct (run_keys_chars lower isspace [KeyEnter]
              (init lower isspace prompt cs rows) Hb) as [s' [-> Hi]].
  destruct (init_fields lower isspace prompt cs rows) as [Hi0 _].
  rewrite Hi0 in Hi. cbn [app] in Hi.
  cbn [run_keys handle]. unfold key_enter. rewrite Hi.
  destruct w; [contradiction|reflexivity].
Qed.

Lemma typed_text_is_returned_witness :
  lit "fa-x" <> [] /\ Forall bound (lit "fa-x")
  /\ run_keys ascii_lower ascii_isspace
       (List.map KeyChar (lit "fa-x") ++ [KeyEnter])
       (init ascii_lower ascii_isspace (lit "> ") [lit "nf-fa-heart"] 6)
     = Ok (Some (lit "fa-x")).
Proof.
  assert (Hw : lit "fa-x" <> []) by (vm_compute; discriminate).
  assert (Hb : Forall bound (lit "fa-x"))
    by (vm_compute; repeat constructor).
  split; [exact Hw|]. split; [exact Hb|].
  exact (@typed_text_is_returned ascii_lower ascii_isspace (lit "> ")
           [lit "nf-fa-heart"] 6 (lit "fa-x") Hw Hb).
Defined.

(** X15.  Enter on a new session with candidates exits with the least
    candidate in the order of the strings. *)
Theorem enter_on_new_session
  (lower : str -> str) (isspace : char -> bool)
  (prompt : str) (cs : list str) (rows : Z) :
  cs <> [] ->
  exists least,
    run_keys lower isspace [KeyEnter] (init lower isspace prompt cs rows)
    = Ok (Some least)
    /\ In least cs
    /\ forall x, In x cs -> str_le least x.
Proof.
  intros Hne.
  destruct (init_fields lower isspace prompt cs rows)
    as [Hi [Hf [Hsel _]]].
  cbn [run_keys handle]. unfold key_enter. rewrite Hi, Hf, Hsel.
  unfold recompute, _sort_items. rewrite strip_nil. cbn [is_empty].
  destruct cs as [|c cs']; [contradiction|]. cbn [is_empty andb negb].
  destruct (sorted str_ltb (fun item : str => item) (c :: cs'))
    as [|least rest] eqn:E.
  - pose proof (sorted_perm str_ltb (fun item : str => item) (c :: cs')) as P.
    rewrite E in P. apply Permutation_sym, Permutation_nil in P.
    discriminate.
  - exists least. split; [reflexivity|]. split.
    + apply (Permutation_in least
               (Permutation_sym
                  (sorted_perm str_ltb (fun item : str => item) (c :: cs')))).
      rewrite E. now left.
    + intros x Hx. apply str_ltb_false.
      exact (@sorted_head _ _ str_ltb (fun item : str => item)
               str_ltb_asym str_ltb_le_trans (c :: cs') least rest E x Hx).
Qed.

Lemma enter_on_new_session_witness :
  [lit "b"; lit "a"; lit "c"] <> []
  /\ exists least,
      run_keys ascii_lower ascii_isspace [KeyEnter]
        (init ascii_lower ascii_isspace (lit "> ")
           [lit "b"; lit "a"; lit "c"] 6)
      = Ok (Some least)
      /\ In least [lit "b"; lit "a"; lit "c"]
      /\ forall x, In x [lit "b"; lit "a"; lit "c"] -> str_le least x.
Proof.
  assert (Hne : [lit "b"; lit "a"; lit "c"] <> []) by discriminate.
  split; [exact Hne|].
  exact (@enter_on_new_session ascii_lower ascii_isspace (lit "> ")
           [lit "b"; lit "a"; lit "c"] 6 Hne).
Defined.

(** X16.  Tab then enter exits with the selected candidate, when it is not
    the empty string. *)
Theorem tab_then_enter
  (lower : str -> str) (isspace : char -> bool) (s : Session) :
  reachable lower isspace s ->
  filtered_items s <> [] ->
  exists v,
    getitem (filtered_items s) (selected_index s) = Some v
    /\ In v (choices s)
    /\ (v <> [] ->
        run_keys lower isspace [KeyTab; KeyEnter] s = Ok (Some v)).
Proof.
  intros Hreach Hne. destruct (reachable_inv Hreach) as [Hc [Hs _]].
  destruct (previous_value_selected s Hs Hne) as [v [_ [Hg Hin]]].
  exists v. split; [exact Hg|]. split.
  - unfold consistent in Hc. rewrite Hc in Hin.
    now apply recompute_In in Hin.
  - intros Hv.
    destruct (key_tab_ok lower isspace s Hs) as [s' [Ht [_ [_ Hn]]]].
    cbn [run_keys handle]. rewrite Ht. cbn [bind].
    rewrite (Hn v Hg Hne). unfold key_enter.
    rewrite filter_items_input. cbn [input_text set_input_text].
    destruct v; [contradiction|reflexivity].
Qed.

Lemma tab_then_enter_witness :
  let s :=
    key_down
      (init ascii_lower ascii_isspace (lit "> ") [lit "b"; lit "a"] 6) in
  reachable ascii_lower ascii_isspace s
  /\ filtered_items s <> []
  /\ exists v,
      getitem (filtered_items s) (selected_index s) = Some v
      /\ In v (choices s)
      /\ (v <> [] ->
          run_keys ascii_lower ascii_isspace [KeyTab; KeyEnter] s
          = Ok (Some v)).
Proof.
  intros s.
  assert (Hr : reachable ascii_lower ascii_isspace s).
  { eapply reach_step with (k := KeyDown); [apply reach_init|reflexivity]. }
  assert (Hne : filtered_items s <> []) by (vm_compute; discriminate).
  split; [exact Hr|]. split; [exact Hne|].
  exact (@tab_then_enter ascii_lower ascii_isspace s Hr Hne).
Defined.

(** X17.  The ranking is stable: the matching candidates of one rank key
    stand in the filtered list in the order they have in the candidate
    list. *)
Theorem ranking_is_stable
  (lower : str -> str) (isspace : char -> bool) (s : Session) (k : key_t) :
  strip isspace (input_text s) <> [] ->
  let t := strip isspace (input_text s) in
  List.filter (fun a => same_rank tuple_ltb k (sort_key lower (lower t) a))
    (filtered_items (filter_items lower isspace s))
  = List.filter (fun a => same_rank tuple_ltb k (sort_key lower (lower t) a))
      (List.filter (matches lower t) (choices s)).
Proof.
  intros Hne t. rewrite filter_items_filtered.
  unfold recompute, _sort_items. fold t.
  destruct t as [|c t'] eqn:Et; [contradiction|]. cbn [is_empty].
  fold (matches lower (c :: t')).
  destruct (List.filter (matches lower (c :: t')) (choices s)) as [|y l];
    [reflexivity|]. cbn [is_empty].
  apply sorted_stable. apply tuple_ltb_le_trans.
Qed.

Lemma ranking_is_stable_witness :
  let s :=
    mkSession (lit "> ") [lit "ABC"; lit "xabc"; lit "abc"] 6 80 76
      (lit "abc") [] 0 0 in
  let rank a :=
    same_rank tuple_ltb (0, 0, lit "abc")
      (sort_key ascii_lower (ascii_lower (strip ascii_isspace (input_text s)))
         a) in
  strip ascii_isspace (input_text s) <> []
  /\ List.filter rank (filtered_items (filter_items ascii_lower ascii_isspace s))
     = [lit "ABC"; lit "abc"]
  /\ List.filter rank (filtered_items (filter_items ascii_lower ascii_isspace s))
     = List.filter rank
         (List.filter
            (matches ascii_lower (strip ascii_isspace (input_text s)))
            (choices s)).
Proof.
  intros s rank.
  assert (Hne : strip ascii_isspace (input_text s) <> [])
    by (vm_compute; discriminate).
  split; [exact Hne|]. split; [reflexivity|].
  exact (@ranking_is_stable ascii_lower ascii_isspace s (0, 0, lit "abc") Hne).
Defined.

(** ** Rendering: widths *)

Lemma len_center (text : str) (width : Z) (fill : char) :
  len (center text width fill) = Z.max (len text) width.
Proof.
  unfold center. destruct (Z.leb_spec (width - len text) 0); [lia|].
  rewrite !len_app, !len_repeat.
  set (marg := width - len text) in *.
  assert (Hb : Z.land (Z.land marg width) 1 = Z.land marg width mod 2)
    by (exact (Z.land_ones (Z.land marg width) 1 ltac:(lia))).
  rewrite Hb.
  pose proof (Z.mod_pos_bound (Z.land marg width) 2 ltac:(lia)).
  pose proof (Z_div_mod_eq_full marg 2).
  pose proof (Z.mod_pos_bound marg 2 ltac:(lia)).
  lia.
Qed.

Lemma text_width_app (a b : FormattedText) :
  text_width (a ++ b) = text_width a + text_width b.
Proof.
  unfold text_width. induction a as [|f a IH]; cbn [app fold_right]; lia.
Qed.

Lemma text_width_panel_row (s : Session) (text : str) (style : String.string) :
  text_width (_panel_row s text style)
  = Z.max (len text) (panel_inner_width s) + 5.
Proof.
  unfold _panel_row, text_width. cbn [fold_right snd].
  rewrite len_ljust, !len_cons, len_nil. lia.
Qed.

Lemma text_width_panel_header (s : Session) (title : str) :
  text_width (_panel_header s title)
  = Z.max (len title + 2) (panel_width s - 2) + 3.
Proof.
  unfold _panel_header, text_width. cbn [fold_right snd].
  rewrite !len_app, len_center, !len_app, !len_cons, !len_nil. lia.
Qed.

Lemma text_width_panel_footer (s : Session) :
  text_width (_panel_footer s) = Z.max (panel_width s - 2) 0 + 3.
Proof.
  unfold _panel_footer, text_width. cbn [fold_right snd].
  rewrite !len_app, len_repeat, !len_cons, !len_nil. lia.
Qed.

Lemma for_extend_rows_with (P : str -> Prop) (s : Session) (xs : list Z)
  (body : Z -> result FormattedText) :
  (forall x, In x xs ->
             exists text style,
               body x = Ok (_panel_row s text style) /\ P text) ->
  exists rows,
    List.length rows = List.length xs
    /\ Forall (fun r => P (fst r)) rows
    /\ for_extend xs body
       = Ok (List.concat
               (List.map (fun r => _panel_row s (fst r) (snd r)) rows)).
Proof.
  induction xs as [|x xs IH]; intros H.
  - exists []. repeat split. constructor.
  - destruct (H x (or_introl eq_refl)) as [text [style [Hx Hp]]].
    destruct IH as [rows [Hl [Hf Hr]]]; [intros y Hy; apply H; now right|].
    exists ((text, style) :: rows). split; [simpl; now rewrite Hl|].
    split; [now constructor|].
    cbn [for_extend]. rewrite Hx, Hr. reflexivity.
Qed.

Lemma render_slot_row_width (s : Session) (idx : Z) :
  0 <= view_start s -> 0 <= idx ->
  exists text style,
    render_slot s idx = Ok (_panel_row s text style)
    /\ len text <= Z.max (panel_inner_width s) 2.
Proof.
  intros Hv Hi. unfold render_slot.
  destruct (Z.ltb_spec (view_start s + idx) (len (filtered_items s))).
  - destruct (@getitem_in_range _ (filtered_items s) (view_start s + idx))
      as [item [-> _]]; [lia|].
    cbn [of_option bind]. do 2 eexists. split; [reflexivity|].
    destruct (view_start s + idx =? selected_index s);
      rewrite len_app, !len_cons, len_nil;
      change (0 + 1 + 1) with 2;
      pose proof (len_format_item_columns item (panel_inner_width s - 2));
      lia.
  - do 2 eexists. split; [reflexivity|]. rewrite len_nil. lia.
Qed.

(** X18.  In a session [render_panel] never raises and every line it
    returns is 81 code points long, the 80 columns of the panel and the line
    break: the header, each panel row and the footer.  The rows are
    [max_rows] many when there are filtered items and [max(max_rows, 1)]
    many when there are none. *)
Theorem render_panel_lines
  (lower : str -> str) (isspace : char -> bool) (s : Session) :
  reachable lower isspace s ->
  exists title rows,
    render_panel s
    = Ok (_panel_header s title
          ++ List.concat
               (List.map (fun r => _panel_row s (fst r) (snd r)) rows)
          ++ _panel_footer s)
    /\ List.length rows
       = Z.to_nat (if is_empty (filtered_items s)
                   then Z.max (max_rows s) 1 else max_rows s)
    /\ text_width (_panel_header s title) = 81
    /\ text_width (_panel_footer s) = 81
    /\ Forall (fun r => text_width (_panel_row s (fst r) (snd r)) = 81) rows.
Proof.
  intros Hreach.
  destruct (reachable_geometry Hreach) as [Hw Hiw].
  destruct (reachable_inv Hreach) as [_ [_ Hv]]. unfold view_ok in Hv.
  assert (Hrow : forall text style,
             len text <= Z.max (panel_inner_width s) 2 ->
             text_width (_panel_row s text style) = 81).
  { intros text style H. rewrite text_width_panel_row.
    pose proof (len_nonneg text). lia. }
  unfold render_panel.
  destruct (filtered_items s) as [|y l] eqn:E; cbn [is_empty].
  - destruct (@for_extend_rows_with
                (fun text => len text <= Z.max (panel_inner_width s) 2)
                s (range (max_rows s - 1))
                (fun _ => Ok (_panel_row s [] "class:panel-placeholder"%string)))
      as [rows [Hl [Hf ->]]].
    { intros x _. do 2 eexists. split; [reflexivity|]. rewrite len_nil. lia. }
    cbn [bind].
    exists (lit "No results"),
      ((_truncate (lit "Tidak ada hasil") (panel_inner_width s),
        "class:no-results"%string) :: rows).
    split; [cbn [List.map List.concat fst snd]; now rewrite <- !app_assoc|].
    split; [cbn [List.length]; rewrite Hl, range_length; lia|].
    split; [rewrite text_width_panel_header, Hw; reflexivity|].
    split; [rewrite text_width_panel_footer, Hw; reflexivity|].
    constructor.
    + cbn [fst snd]. apply Hrow. rewrite len_truncate. lia.
    + eapply Forall_impl; [|exact Hf]. intros r Hr. now apply Hrow.
  - assert (H0 : 0 <= view_start s).
    { destruct (Z.leb_spec (max_rows s) 0); [lia|]. unfold shows in Hv. lia. }
    destruct (@for_extend_rows_with
                (fun text => len text <= Z.max (panel_inner_width s) 2)
                s (range (max_rows s)) (render_slot s))
      as [rows [Hl [Hf ->]]].
    { intros x Hx. apply range_In in Hx. apply render_slot_row_width; lia. }
    cbn [bind]. exists (lit "NerdIcons"), rows.
    split; [now rewrite <- !app_assoc|].
    split; [now rewrite Hl, range_length|].
    split; [rewrite text_width_panel_header, Hw; reflexivity|].
    split; [rewrite text_width_panel_footer, Hw; reflexivity|].
    eapply Forall_impl; [|exact Hf]. intros r Hr. now apply Hrow.
Qed.

Lemma render_panel_lines_witness :
  let s :=
    init ascii_lower ascii_isspace (lit "> ")
      [lit "X nf-fa-heart (U+F004)"; lit "plain"] 3 in
  reachable ascii_lower ascii_isspace s
  /\ exists title rows,
      render_panel s
      = Ok (_panel_header s title
            ++ List.concat
                 (List.map (fun r => _panel_row s (fst r) (snd r)) rows)
            ++ _panel_footer s)
      /\ List.length rows
         = Z.to_nat (if is_empty (filtered_items s)
                     then Z.max (max_rows s) 1 else max_rows s)
      /\ text_width (_panel_header s title) = 81
      /\ text_width (_panel_footer s) = 81
      /\ Forall (fun r => text_width (_panel_row s (fst r) (snd r)) = 81)
           rows.
Proof.
  intros s.
  assert (Hr : reachable ascii_lower ascii_isspace s) by apply reach_init.
  split; [exact Hr|].
  exact (@render_panel_lines ascii_lower ascii_isspace s Hr).
Defined.

(** X19.  In a session [render_content] never raises.  With no filtered
    item it returns the prompt, the input text and the hint line only: the
    panel, also its "no results" form, is not drawn; otherwise the panel
    stands between them, after two line breaks and before one. *)
Theorem render_content_parts
  (lower : str -> str) (isspace : char -> bool) (s : Session) :
  reachable lower isspace s ->
  let head :=
    [("class:prompt"%string, prompt_text s);
     ("class:input"%string, input_text s)] in
  let hint :=
    [("class:footer"%string, lit "Tab: isi dari pilihan | Ctrl+C: batal")] in
  (filtered_items s = [] -> render_content s = Ok (head ++ hint))
  /\ (filtered_items s <> [] ->
      exists panel,
        render_panel s = Ok panel
        /\ render_content s
           = Ok (head ++ [(EmptyString, [newline; newline])] ++ panel
                 ++ [(EmptyString, [newline])] ++ hint)).
Proof.
  intros Hreach head hint. unfold render_content. split.
  - intros ->. reflexivity.
  - intros Hne.
    destruct (reachable_inv Hreach) as [_ [_ Hv]]. unfold view_ok in Hv.
    destruct (filtered_items s) as [|y l] eqn:E; [contradiction|].
    cbn [is_empty negb].
    assert (H0 : 0 <= view_start s).
    { destruct (Z.leb_spec (max_rows s) 0); [lia|]. unfold shows in Hv. lia. }
    assert (Hp : exists panel, render_panel s = Ok panel).
    { unfold render_panel. rewrite E. cbn [is_empty].
      destruct (@for_extend_rows s (range (max_rows s)) (render_slot s))
        as [rows [_ ->]].
      - intros x Hx. apply range_In in Hx. apply render_slot_row; lia.
      - cbn [bind]. eauto. }
    destruct Hp as [panel Hp]. exists panel. split; [exact Hp|].
    rewrite Hp. cbn [bind]. subst head hint.
    now rewrite <- !app_assoc.
Qed.

Lemma render_content_parts_witness :
  let s :=
    key_char ascii_lower ascii_isspace 122%N
      (init ascii_lower ascii_isspace (lit "> ") [lit "b"; lit "a"] 6) in
  reachable ascii_lower ascii_isspace s
  /\ filtered_items s = []
  /\ render_content s
     = Ok [("class:prompt"%string, lit "> "); ("class:input"%string, lit "z");
           ("class:footer"%string,
            lit "Tab: isi dari pilihan | Ctrl+C: batal")].
Proof.
  intros s.
  assert (Hr : reachable ascii_lower ascii_isspace s).
  { eapply reach_step with (k := KeyChar 122%N);
      [apply reach_init|reflexivity]. }
  assert (He : filtered_items s = []) by reflexivity.
  split; [exact Hr|]. split; [exact He|].
  exact (proj1 (@render_content_parts ascii_lower ascii_isspace s Hr) He).
Defined.

(** ** The dataset loader: well-ranged datasets *)

(** X20.  When every value that parses as a hexadecimal integer fits a C
    [int], the loader does not raise: it returns, in the order of the
    mapping, the candidate ["<glyph> <name> (U+<HEX>)"] of each entry whose
    value is a code point below [0x110000], and skips the entries whose
    value does not parse or is not a code point.  It returns at most one
    candidate per entry. *)
Theorem loader_skips_bad_entries
  (int16 : str -> option Z) (upper : str -> str) (raw : list (str * str)) :
  (forall e i, In e raw -> int16 (snd e) = Some i ->
               - 2147483648 <= i <= 2147483647) ->
  load_nerdicons int16 upper (Some raw)
  = Ok (flat_map (entry_candidates int16 upper) raw)
  /\ (List.length (flat_map (entry_candidates int16 upper) raw)
      <= List.length raw)%nat.
Proof.
  intros H. split.
  - cbn [load_nerdicons]. now rewrite load_items_in_range.
  - clear H. induction raw as [|e raw IH]; [apply le_n|].
    cbn [flat_map]. rewrite length_app. cbn [List.length].
    assert (List.length (entry_candidates int16 upper e) <= 1)%nat.
    { unfold entry_candidates. destruct (int16 (snd e)) as [i|]; [|cbn; lia].
      destruct ((0 <=? i) && (i <? 1114112)); cbn; lia. }
    lia.
Qed.

Lemma loader_skips_bad_entries_witness :
  let raw :=
    [(lit "heart", lit "f004"); (lit "bad", lit "zz");
     (lit "far", lit "110000"); (lit "star", lit "F005")] in
  (forall e i, In e raw -> hex_plain (snd e) = Some i ->
               - 2147483648 <= i <= 2147483647)
  /\ load_nerdicons hex_plain ascii_upper (Some raw)
     = Ok [[61444%N] ++ lit " heart (U+F004)";
           [61445%N] ++ lit " star (U+F005)"].
Proof.
  intros raw.
  assert (H : forall e i, In e raw -> hex_plain (snd e) = Some i ->
                          - 2147483648 <= i <= 2147483647).
  { intros e i [<-|[<-|[<-|[<-|[]]]]] Hi; vm_compute in Hi;
      try discriminate; injection Hi as <-; lia. }
  split; [exact H|].
  exact (proj1 (@loader_skips_bad_entries hex_plain ascii_upper raw H)).
Defined.

(** ** Scrolling and the selected row *)

(** X21.  The window scrolls one row at a time and only when the selection
    moves out of it.  With at least one visible row, down moves the window
    start forward by one when the selection is not on the last item and the
    selected row is the last visible one, and leaves it otherwise, also at
    the end of the list; up moves it back by one when the selection is not
    on the first item and the selected row is the first visible one, and
    leaves it otherwise. *)
Theorem navigation_scrolls_by_one
  (lower : str -> str) (isspace : char -> bool) (s : Session) :
  reachable lower isspace s ->
  1 <= max_rows s ->
  view_start (key_down s)
  = (if (selected_index s <? len (filtered_items s) - 1)
        && (view_start s + max_rows s - 1 <=? selected_index s)
     then view_start s + 1 else view_start s)
  /\ view_start (key_up s)
     = (if (0 <? selected_index s) && (selected_index s <=? view_start s)
        then view_start s - 1 else view_start s).
Proof.
  intros Hreach Hrows. destruct (reachable_inv Hreach) as [_ [Hs Hv]].
  unfold sel_ok, view_ok, shows in *. unfold key_down, key_up.
  destruct (filtered_items s) as [|y l] eqn:E.
  - cbn [is_empty negb andb]. rewrite len_nil.
    destruct (Z.ltb_spec (selected_index s) (0 - 1)); [lia|].
    destruct (Z.ltb_spec 0 (selected_index s)); [lia|].
    split; reflexivity.
  - destruct (Z.leb_spec (max_rows s) 0) as [|Hm]; [lia|].
    cbn [is_empty negb andb]. split.
    + destruct (Z.ltb_spec (selected_index s) (len (y :: l) - 1));
        cbn [andb]; [|reflexivity].
      rewrite ensure_view_start by (cbn; rewrite E; discriminate).
      cbn [max_rows filtered_items selected_index view_start
             set_selected_index]. rewrite E.
      destruct (Z.leb_spec (max_rows s) 0); [lia|].
      unfold minimal_adjust_policy, clamp.
      destruct (Z.ltb_spec (selected_index s + 1) (view_start s)),
        (Z.leb_spec (view_start s + max_rows s) (selected_index s + 1)),
        (Z.leb_spec (view_start s + max_rows s - 1) (selected_index s)); lia.
    + destruct (Z.ltb_spec 0 (selected_index s)); cbn [andb]; [|reflexivity].
      rewrite ensure_view_start by (cbn; rewrite E; discriminate).
      cbn [max_rows filtered_items selected_index view_start
             set_selected_index]. rewrite E.
      destruct (Z.leb_spec (max_rows s) 0); [lia|].
      unfold minimal_adjust_policy, clamp.
      destruct (Z.ltb_spec (selected_index s - 1) (view_start s)),
        (Z.leb_spec (view_start s + max_rows s) (selected_index s - 1)),
        (Z.leb_spec (selected_index s) (view_start s)); lia.
Qed.

Lemma navigation_scrolls_by_one_witness :
  let s0 :=
    init ascii_lower ascii_isspace (lit "> ")
      [lit "a"; lit "b"; lit "c"; lit "d"] 2 in
  let s := key_down s0 in
  let last := key_down (key_down s) in
  reachable ascii_lower ascii_isspace s
  /\ 1 <= max_rows s
  /\ (selected_index s, view_start s) = (1, 0)
  /\ view_start (key_down s) = 1
  /\ (selected_index last, view_start last) = (3, 2)
  /\ view_start (key_down last) = 2
  /\ view_start (key_down s)
     = (if (selected_index s <? len (filtered_items s) - 1)
           && (view_start s + max_rows s - 1 <=? selected_index s)
        then view_start s + 1 else view_start s)
  /\ view_start (key_up s)
     = (if (0 <? selected_index s) && (selected_index s <=? view_start s)
        then view_start s - 1 else view_start s).
Proof.
  intros s0 s last.
  assert (Hr : reachable ascii_lower ascii_isspace s).
  { eapply reach_step with (k := KeyDown); [apply reach_init|reflexivity]. }
  assert (Hrows : 1 <= max_rows s) by (vm_compute; discriminate).
  split; [exact Hr|]. split; [exact Hrows|].
  split; [reflexivity|]. split; [reflexivity|].
  split; [reflexivity|]. split; [reflexivity|].
  exact (@navigation_scrolls_by_one ascii_lower ascii_isspace s Hr Hrows).
Defined.

(** X22.  The selected candidate is always drawn: in a session with at least
    one visible row and a non-empty filtered list, the display slot
    [selected_index - view_start] is one of the [max_rows] slots and is
    rendered as the marked, highlighted row of the selected candidate; no
    other slot is highlighted. *)
Theorem selected_row_is_rendered
  (lower : str -> str) (isspace : char -> bool) (s : Session) :
  reachable lower isspace s ->
  1 <= max_rows s ->
  filtered_items s <> [] ->
  exists v,
    getitem (filtered_items s) (selected_index s) = Some v
    /\ In (selected_index s - view_start s) (range (max_rows s))
    /\ render_slot s (selected_index s - view_start s)
       = Ok (_panel_row s
               ([marker; space]
                ++ _format_item_columns v (panel_inner_width s - 2))
               "class:selected-line"%string)
    /\ forall idx,
         0 <= idx -> idx <> selected_index s - view_start s ->
         exists text style,
           render_slot s idx = Ok (_panel_row s text style)
           /\ style <> "class:selected-line"%string.
Proof.
  intros Hreach Hrows Hne. destruct (reachable_inv Hreach) as [_ [Hs Hv]].
  destruct (previous_value_selected s Hs Hne) as [v [_ [Hg _]]].
  unfold sel_ok, view_ok, shows in *.
  destruct (filtered_items s) as [|y l] eqn:E; [contradiction|].
  destruct (Z.leb_spec (max_rows s) 0); [lia|].
  exists v. split; [exact Hg|]. split; [|split].
  - unfold range. apply in_map_iff.
    exists (Z.to_nat (selected_index s - view_start s)).
    split; [lia|]. apply in_seq. lia.
  - unfold render_slot. rewrite E.
    replace (view_start s + (selected_index s - view_start s))
      with (selected_index s) by lia.
    destruct (Z.ltb_spec (selected_index s) (len (y :: l))); [|lia].
    rewrite Hg. cbn [of_option bind]. now rewrite Z.eqb_refl.
  - intros idx Hidx Hother. unfold render_slot. rewrite E.
    destruct (Z.ltb_spec (view_start s + idx) (len (y :: l))).
    + destruct (@getitem_in_range _ (y :: l) (view_start s + idx))
        as [item [-> _]]; [lia|].
      cbn [of_option bind].
      destruct (Z.eqb_spec (view_start s + idx) (selected_index s)); [lia|].
      do 2 eexists. split; [reflexivity|discriminate].
    + do 2 eexists. split; [reflexivity|discriminate].
Qed.

Lemma selected_row_is_rendered_witness :
  let s :=
    key_down
      (init ascii_lower ascii_isspace (lit "> ")
         [lit "a"; lit "b"; lit "c"; lit "d"] 2) in
  reachable ascii_lower ascii_isspace s
  /\ 1 <= max_rows s
  /\ filtered_items s <> []
  /\ exists v,
      getitem (filtered_items s) (selected_index s) = Some v
      /\ In (selected_index s - view_start s) (range (max_rows s))
      /\ render_slot s (selected_index s - view_start s)
         = Ok (_panel_row s
                 ([marker; space]
                  ++ _format_item_columns v (panel_inner_width s - 2))
                 "class:selected-line"%string)
      /\ forall idx,
           0 <= idx -> idx <> selected_index s - view_start s ->
           exists text style,
             render_slot s idx = Ok (_panel_row s text style)
             /\ style <> "class:selected-line"%string.
Proof.
  intros s.
  assert (Hr : reachable ascii_lower ascii_isspace s).
  { eapply reach_step with (k := KeyDown); [apply reach_init|reflexivity]. }
  assert (Hrows : 1 <= max_rows s) by (vm_compute; discriminate).
  assert (Hne : filtered_items s <> []) by (vm_compute; discriminate).
  split; [exact Hr|]. split; [exact Hrows|]. split; [exact Hne|].
  exact (@selected_row_is_rendered ascii_lower ascii_isspace s Hr Hrows Hne).
Defined.

(** X23.  Escape and ctrl-u do the same: they empty the input text and list
    all the candidates again, in ascending order of the strings, from any
    state. *)
Theorem escape_lists_all
  (lower : str -> str) (isspace : char -> bool) (s : Session) :
  key_escape lower isspace s = key_ctrl_u lower isspace s
  /\ input_text (key_escape lower isspace s) = []
  /\ Permutation (choices s) (filtered_items (key_escape lower isspace s))
  /\ StronglySorted str_le (filtered_items (key_escape lower isspace s))
  /\ choices (key_escape lower isspace s) = choices s.
Proof.
  split; [reflexivity|]. unfold key_escape.
  rewrite filter_items_input, filter_items_filtered.
  cbn [input_text choices set_input_text].
  split; [reflexivity|].
  split; [exact (recompute_perm lower isspace (choices s) [])|].
  split; [now apply recompute_sorted_plain|].
  destruct (filter_items_settings lower isspace (set_input_text s []))
    as [_ [H _]].
  exact H.
Qed.
